(** * NRIC name comparator: the comparison core of [app.py]

    A shallow embedding of the Streamlit script [src/app.py]: the
    helpers [pick_sheet] (its choice of reader), [normalize_name],
    [add_serial_number], [to_xlsx_bytes] and the module-level block that
    validates the name column, compares the two vendor lists and hands
    the result to the download button.

    Conventions of the embedding.
    - The text of a cell is a Python [str]: the list of its Unicode code
      points.  What [strip], the regex class [\s] and [upper] do to a
      code point is the library's: these tables, whether [astype(str)]
      keeps a missing value missing (pandas 3) or turns it into text
      (pandas before 3), and the Excel writer are the fields of a
      [Backend].  The repository pins no pandas; the properties hold for
      every backend, under the assumptions [BackendOk] where they need
      some.
    - Column labels, file names and the texts put on the page are only
      compared, joined and split at a dot; they are [string]s.
    - A column is a pandas Series, a list of cells read positionally; a
      DataFrame keeps its column labels and its rows, every row with its
      index label.
    - [set] is [gset].
    - Streamlit calls are events appended to a trace; [st.stop()] and an
      uncaught exception end the script. *)

From Stdlib Require Import Ascii NArith ZArith.
From stdpp Require Import gmap strings list pretty.

(** ** Labels, file names and messages *)

Module Str.

(** [str.lower] on one ASCII character. *)
Definition lower_char (c : ascii) : ascii :=
  let n := N_of_ascii c in
  if ((65 <=? n)%N && (n <=? 90)%N) then ascii_of_N (n + 32) else c.

(** [s.lower()] *)
Fixpoint lower (s : string) : string :=
  match s with
  | EmptyString => EmptyString
  | String c s' => String (lower_char c) (lower s')
  end.

(** [s.split(sep)] for a separator of one character: the pieces between
    the separators, empty pieces kept, one piece at least. *)
Fixpoint split (sep : ascii) (s : string) : list string :=
  match s with
  | EmptyString => [EmptyString]
  | String c s' =>
      if Ascii.eqb c sep then EmptyString :: split sep s'
      else match split sep s' with
           | w :: ws => String c w :: ws
           | [] => [String c EmptyString]
           end
  end.

(** [l[-1]] on the result of a split, which is never empty. *)
Definition last_piece (l : list string) : string := default EmptyString (last l).

(** [sep in s] *)
Fixpoint has_char (sep : ascii) (s : string) : bool :=
  match s with
  | EmptyString => false
  | String c s' => Ascii.eqb c sep || has_char sep s'
  end.

(** [s.endswith(t)] *)
Definition ends_with (s t : string) : Prop := exists p, s = p +:+ t.

(** [sep.join(l)] *)
Fixpoint join (sep : string) (l : list string) : string :=
  match l with
  | [] => EmptyString
  | [x] => x
  | x :: l' => x +:+ sep +:+ join sep l'
  end.

End Str.

(** ** Text *)

(** The code points of a literal written in ASCII. *)
Fixpoint txt (s : string) : list N :=
  match s with
  | EmptyString => []
  | String c s' => N_of_ascii c :: txt s'
  end.

Module Txt.

Section Class.
(** The characters a library function takes for whitespace. *)
Variable sp : N -> bool.

(** [s.lstrip()] *)
Fixpoint lstrip (s : list N) : list N :=
  match s with
  | [] => []
  | c :: s' => if sp c then lstrip s' else s
  end.

Definition is_empty (s : list N) : bool :=
  match s with [] => true | _ :: _ => false end.

(** [s.rstrip()]: the character [c] goes exactly when it and everything
    after it is whitespace. *)
Fixpoint rstrip (s : list N) : list N :=
  match s with
  | [] => []
  | c :: s' =>
      let r := rstrip s' in
      if sp c && is_empty r then [] else c :: r
  end.

(** [s.strip()] *)
Definition strip (s : list N) : list N := rstrip (lstrip s).

(** [re.sub(r"\s+", " ", s)]: scanning left to right, every maximal run
    of whitespace is one match and is replaced by one space (code point
    32).  [in_run] tells that the current match has already been
    replaced. *)
Fixpoint sub_ws_go (in_run : bool) (s : list N) : list N :=
  match s with
  | [] => []
  | c :: s' =>
      if sp c
      then (if in_run then sub_ws_go true s' else 32%N :: sub_ws_go true s')
      else c :: sub_ws_go false s'
  end.

Definition sub_ws (s : list N) : list N := sub_ws_go false s.

(** The text splits into words at whitespace.  Used in statements
    only. *)
Definition starts_space (s : list N) : bool :=
  match s with [] => true | c :: _ => sp c end.

Fixpoint words (s : list N) : list (list N) :=
  match s with
  | [] => []
  | c :: s' =>
      if sp c then words s'
      else if starts_space s' then [c] :: words s'
      else match words s' with
           | w :: ws => (c :: w) :: ws
           | [] => [[c]]
           end
  end.

(** [s] opens with a whitespace character. *)
Definition starts_ws (s : list N) : bool :=
  match s with [] => false | c :: _ => sp c end.

(** [s] closes with a whitespace character. *)
Definition ends_ws (s : list N) : bool :=
  match last s with Some c => sp c | None => false end.

(** Every character of [s] is whitespace. *)
Fixpoint all_space (s : list N) : bool :=
  match s with
  | [] => true
  | c :: s' => sp c && all_space s'
  end.

(** Some character of [s] is whitespace. *)
Fixpoint has_space (s : list N) : bool :=
  match s with
  | [] => false
  | c :: s' => sp c || has_space s'
  end.

(** A word: not empty, no whitespace in it. *)
Definition is_word (s : list N) : bool := negb (is_empty s) && negb (has_space s).

End Class.

(** [s.upper()]: every character is replaced by its upper-case form,
    which can be more than one character. *)
Fixpoint upper (up : N -> list N) (s : list N) : list N :=
  match s with
  | [] => []
  | c :: s' => up c ++ upper up s'
  end.

(** [sep.join(l)] *)
Fixpoint join (sep : list N) (l : list (list N)) : list N :=
  match l with
  | [] => []
  | [x] => x
  | x :: l' => x ++ sep ++ join sep l'
  end.

End Txt.

(** One space. *)
Definition space : list N := [32%N].

(** ** Cells and DataFrames *)

(** The Python objects a column holds.  [CNaN] is the float NaN pandas
    puts in an empty spreadsheet cell; [CObj] is any other object (a
    float that is a number, a timestamp, ...), given by its [str()]. *)
Inductive cell : Type :=
  | CStr (s : list N)
  | CInt (z : Z)
  | CBool (b : bool)
  | CNaN
  | CNone
  | CObj (repr : list N).

(** [str(x)] *)
Definition py_str (x : cell) : list N :=
  match x with
  | CStr s => s
  | CInt z => txt (pretty z)
  | CBool true => txt "True"
  | CBool false => txt "False"
  | CNaN => txt "nan"
  | CNone => txt "None"
  | CObj repr => repr
  end.

(** [pd.isna(x)] *)
Definition is_missing (x : cell) : bool :=
  match x with CNaN | CNone => true | _ => false end.

(** A frame as [xl.parse] hands it over: the column labels and the rows
    in order, each with its index label.  [xl.parse] renames a header
    that repeats, so a label names one column. *)
Record DataFrame : Type := mkDataFrame {
  columns : list string;
  rows : list (Z * list cell)
}.

(** [len(df)] *)
Definition len (df : DataFrame) : nat := length (rows df).

(** [df.empty]: some axis has length 0. *)
Definition df_empty (df : DataFrame) : bool :=
  match columns df, rows df with
  | _ :: _, _ :: _ => false
  | _, _ => true
  end.

(** The exceptions of the script.  [KeyErrorNoneOf] is the KeyError of
    [df[[...]]] whose message says that none of the labels is a column;
    [Refused] is whatever the Excel writer raises. *)
Inductive exn : Type :=
  | KeyError (key : string)
  | KeyErrorNoneOf (labels : list string)
  | ValueError (msg : string)
  | Refused (kind msg : string).

(** What is in a sheet of a workbook: its name, the header row and the
    data rows. *)
Record sheet : Type := mkSheet {
  sheet_name : list N;
  header : list string;
  body : list (list cell)
}.

(** ** The libraries *)

(** What the script relies on pandas, the regex engine and openpyxl for.
    [excel_write] stands for the [ExcelWriter] block: handed the calls
    [df.to_excel(writer, index=False, sheet_name=...)] in order, it
    leaves a workbook or raises. *)
Class Backend : Type := {
  astype_keeps_missing : bool;
  strip_space : N -> bool;
  re_space : N -> bool;
  upper_of : N -> list N;
  excel_write : list (list N * DataFrame) -> exn + list sheet
}.

(** What the properties of the Normalizer assume of the tables. *)
Class BackendOk (B : Backend) : Prop := {
  (** the space is whitespace for [strip] and for [\s] *)
  ok_space : strip_space 32 = true /\ re_space 32 = true;
  (** what [\s] matches, [strip] strips *)
  ok_re_strip : forall c, re_space c = true -> strip_space c = true;
  (** the printable ASCII characters but the space are not whitespace *)
  ok_graph : forall c, (33 <= c <= 126)%N -> strip_space c = false;
  (** [upper] on ASCII: [a-z] go to [A-Z], nothing else changes *)
  ok_upper_ascii : forall c, (c < 128)%N ->
    upper_of c = [if ((97 <=? c)%N && (c <=? 122)%N) then (c - 32)%N else c];
  (** whitespace has no case *)
  ok_upper_space : forall c, strip_space c = true -> upper_of c = [c];
  (** the upper-case form of a character that is not whitespace is not
      empty and has no whitespace *)
  ok_upper_other : forall c, strip_space c = false ->
    upper_of c <> [] /\ Forall (fun d => strip_space d = false) (upper_of c);
  (** an upper-case form is in upper case *)
  ok_upper_idem : forall c, Txt.upper upper_of (upper_of c) = upper_of c
}.

(** ** The Normalizer *)

Section Normalizer.
Context `{B : Backend}.

(** [Series.astype(str)] on one element: its [str()]; [None] stands for
    an element that is still missing afterwards. *)
Definition astype_str (x : cell) : option (list N) :=
  if is_missing x && astype_keeps_missing then None else Some (py_str x).

(** [Series.fillna(value)] on one element. *)
Definition fillna (value : list N) (x : option (list N)) : list N :=
  match x with Some s => s | None => value end.

(** One element through [normalize_name]. *)
Definition normalize_value (x : cell) : list N :=
  let s := Txt.strip strip_space (fillna [] (astype_str x)) in
  let s := Txt.sub_ws re_space s in
  Txt.upper upper_of s.

(** [normalize_name(s)] *)
Definition normalize_name (s : list cell) : list (list N) :=
  map normalize_value s.

(** [normalize] of the spec: the Normalizer on one text value. *)
Definition normalize (s : list N) : list N := normalize_value (CStr s).

End Normalizer.

(** ** Frames *)

(** Position of the first column labelled [name]. *)
Fixpoint col_pos (name : string) (cols : list string) : option nat :=
  match cols with
  | [] => None
  | c :: cols' =>
      if decide (c = name) then Some 0 else S <$> col_pos name cols'
  end.

(** The cell of a row at position [i]; frames are rectangular, a row too
    short reads as a missing value. *)
Definition cell_at (i : nat) (r : Z * list cell) : cell := nth i r.2 CNaN.

(** [df[name]], the values of the column; [KeyError] when no column has
    that label. *)
Definition getitem (df : DataFrame) (name : string) : exn + list cell :=
  match col_pos name (columns df) with
  | Some i => inr (map (cell_at i) (rows df))
  | None => inl (KeyError name)
  end.

(** [df[[name]]], the frame restricted to one column; the KeyError for a
    list of labels when no column has that label. *)
Definition getitem_frame (df : DataFrame) (name : string) : exn + DataFrame :=
  match col_pos name (columns df) with
  | Some i =>
      inr {| columns := [name];
             rows := map (fun r => (r.1, [cell_at i r])) (rows df) |}
  | None => inl (KeyErrorNoneOf [name])
  end.

(** Boolean indexing: the elements of [l] where the mask is [True]. *)
Fixpoint select {A : Type} (l : list A) (mask : list bool) : list A :=
  match l, mask with
  | x :: l', b :: mask' =>
      if b then x :: select l' mask' else select l' mask'
  | _, _ => []
  end.

(** [df.loc[mask]] for a mask that carries the index of [df]: the rows
    keep their index labels and their order. *)
Definition loc (df : DataFrame) (mask : list bool) : DataFrame :=
  {| columns := columns df; rows := select (rows df) mask |}.

(** [s[s != ""].tolist()] *)
Definition nonempty_values (s : list (list N)) : list (list N) :=
  select s (map (fun k => bool_decide (k <> [])) s).

(** [s.isin(keys)] *)
Definition isin (s : list (list N)) (keys : gset (list N)) : list bool :=
  map (fun k => bool_decide (k ∈ keys)) s.

(** [df.reset_index(drop=True)]: the index becomes 0, 1, 2, ... *)
Definition reset_index_drop (df : DataFrame) : DataFrame :=
  {| columns := columns df;
     rows := imap (fun i r => (Z.of_nat i, r.2)) (rows df) |}.

(** [range(lo, hi)] as a column of integers. *)
Definition py_range (lo hi : nat) : list cell :=
  map (fun k => CInt (Z.of_nat k)) (seq lo (hi - lo)).

(** [df.insert(loc, column, value)] with [allow_duplicates] left at its
    default: a label already there is refused, and so is a value whose
    length is not the frame's. *)
Definition df_insert (pos : nat) (column : string) (value : list cell)
    (df : DataFrame) : exn + DataFrame :=
  if bool_decide (column ∈ columns df)
  then inl (ValueError ("cannot insert " +:+ column +:+ ", already exists"))
  else if bool_decide (length value = length (rows df))
  then inr {| columns := take pos (columns df) ++ column :: drop pos (columns df);
              rows := zip_with
                        (fun r v => (r.1, take pos r.2 ++ v :: drop pos r.2))
                        (rows df) value |}
  else inl (ValueError "Length of values does not match length of index").

Definition NAME_COL : string := "Full Name As Per NRIC".
Definition SERIAL_COL : string := "S/N".

(** [add_serial_number(df)] *)
Definition add_serial_number (df : DataFrame) : exn + DataFrame :=
  let df_out := reset_index_drop df in
  df_insert 0 SERIAL_COL (py_range 1 (len df_out + 1)) df_out.

(** The lines of [pick_sheet] that choose the reader: the extension is
    what follows the last dot of the lower-cased file name. *)
Definition file_ext (name : string) : string :=
  Str.last_piece (Str.split "."%char (Str.lower name)).

Definition excel_engine (name : string) : string :=
  let ext := file_ext name in
  if decide (ext = "xlsx") then "openpyxl" else "xlrd".

(** Code that can raise: [inl] is the exception. *)
Definition exn_bind {A B : Type} (x : exn + A) (f : A -> exn + B) : exn + B :=
  match x with inl e => inl e | inr a => f a end.

Global Instance exn_mbind : MBind (sum exn) := fun A B f x => exn_bind x f.

(** ** Export *)

(** [to_xlsx_bytes(df_dict)]: the tables go to the writer in the order
    of the dict, each under the first 31 characters of its name and
    without its index; the workbook, or the exception, is the
    writer's. *)
Definition to_xlsx_bytes `{B : Backend} (df_dict : list (list N * DataFrame))
    : exn + list sheet :=
  excel_write (map (fun '(sheet_name, df) => (take 31 sheet_name, df)) df_dict).

(** ** The comparison *)

(** The names the compare block of the script binds. *)
Record comparison : Type := mkComparison {
  a_norm : list (list N);
  b_norm : list (list N);
  a_set : gset (list N);
  b_set : gset (list N);
  new_mask_b : list bool;
  removed_mask_a : list bool;
  new_rows_b : DataFrame;
  removed_rows_a : DataFrame
}.

(** The block under [# Compare] of the script. *)
Definition compare `{B : Backend} (df_a df_b : DataFrame) : exn + comparison :=
  col_a ← getitem df_a NAME_COL;
  col_b ← getitem df_b NAME_COL;
  let a_norm := normalize_name col_a in
  let b_norm := normalize_name col_b in
  let a_set : gset (list N) := list_to_set (nonempty_values a_norm) in
  let b_set : gset (list N) := list_to_set (nonempty_values b_norm) in
  let new_mask_b := isin b_norm (b_set ∖ a_set) in
  let removed_mask_a := isin a_norm (a_set ∖ b_set) in
  let new_rows_b := loc df_b new_mask_b in
  let removed_rows_a := loc df_a removed_mask_a in
  inr (mkComparison a_norm b_norm a_set b_set new_mask_b removed_mask_a
         new_rows_b removed_rows_a).

(** ** The script *)

(** The Streamlit calls of the script that put something on the page. *)
Inductive ui_event : Type :=
  | Subheader (body : string)
  | Write (body : string)
  | Markdown (body : string)
  | Info (body : string)
  | Error (body : string)
  | Dataframe (data : DataFrame)
  | DownloadButton (label : string) (data : list sheet)
      (file_name mime : string).

(** How a run of the script ends: it reaches its end, [st.stop()] ends
    it, or an exception nobody catches does. *)
Inductive outcome (A : Type) : Type :=
  | Done (a : A)
  | Stopped
  | Uncaught (e : exn).
Arguments Done {A} a.
Arguments Stopped {A}.
Arguments Uncaught {A} e.

(** A script computes a value and leaves a trace of page events. *)
Definition Script (A : Type) : Type := list ui_event * outcome A.

Definition ret {A : Type} (a : A) : Script A := ([], Done a).

Definition bind {A B : Type} (m : Script A) (f : A -> Script B) : Script B :=
  match m.2 with
  | Done a => (m.1 ++ (f a).1, (f a).2)
  | Stopped => (m.1, Stopped)
  | Uncaught e => (m.1, Uncaught e)
  end.

Global Instance script_mret : MRet Script := @ret.
Global Instance script_mbind : MBind Script := fun A B f m => bind m f.

(** A run after the events [l]. *)
Definition after {B : Type} (l : list ui_event) (m : Script B) : Script B :=
  (l ++ m.1, m.2).

Definition emit (e : ui_event) : Script unit := ([e], Done tt).
Definition st_stop {A : Type} : Script A := ([], Stopped).
Definition run {A : Type} (x : exn + A) : Script A :=
  match x with inr a => ret a | inl e => ([], Uncaught e) end.

Definition nl : string := String "010"%char EmptyString.

(** The [missing] list of the validation block. *)
Definition missing_columns (df_a df_b : DataFrame) : list string :=
  let missing := [] in
  let missing :=
    if bool_decide (NAME_COL ∉ columns df_a)
    then missing ++ ["Excel A missing column: '" +:+ NAME_COL +:+ "'"]
    else missing in
  let missing :=
    if bool_decide (NAME_COL ∉ columns df_b)
    then missing ++ ["Excel B missing column: '" +:+ NAME_COL +:+ "'"]
    else missing in
  missing.

(** One side of the preview. *)
Definition preview (title nothing : string) (df : DataFrame) : Script unit :=
  emit (Markdown title) ;;
  if negb (df_empty df)
  then (names ← run (getitem_frame df NAME_COL); emit (Dataframe names))
  else emit (Info nothing).

(** The script from [if file_a and file_b:] on.  An upload is the frame
    [pick_sheet] parses from it; [None] is a file not uploaded yet. *)
Definition script `{B : Backend} (file_a file_b : option DataFrame)
    : Script unit :=
  match file_a, file_b with
  | Some df_a, Some df_b =>
      emit (Subheader "1) Select sheets") ;;
      let missing := missing_columns df_a df_b in
      (if negb (bool_decide (missing = []))
       then emit (Error ("Cannot compare because required column is missing:"
                         +:+ nl +:+ nl +:+ "- "
                         +:+ Str.join (nl +:+ "- ") missing)) ;;
            st_stop
       else ret tt) ;;
      c ← run (compare df_a df_b);
      emit (Subheader "2) Summary") ;;
      emit (Write ("Rows A: " +:+ pretty (len df_a)
                   +:+ " | Rows B: " +:+ pretty (len df_b) +:+ " | "
                   +:+ "New in Excel B: " +:+ pretty (len (new_rows_b c))
                   +:+ " | "
                   +:+ "Removed from Excel A: "
                   +:+ pretty (len (removed_rows_a c)))) ;;
      emit (Subheader "3) Results (Preview)") ;;
      preview "### 🆕 New in Excel B" "No new names found in Excel B."
        (new_rows_b c) ;;
      preview "### ❌ Removed from Excel A" "No names removed from Excel A."
        (removed_rows_a c) ;;
      emit (Subheader "4) Download results") ;;
      new_rows_b_out ← run (add_serial_number (new_rows_b c));
      removed_rows_a_out ← run (add_serial_number (removed_rows_a c));
      xlsx_bytes ← run (to_xlsx_bytes
                          [(txt "New_in_Excel_B", new_rows_b_out);
                           (txt "Removed_from_Excel_A", removed_rows_a_out)]);
      emit (DownloadButton "Download comparison (XLSX)" xlsx_bytes
              "nric_name_comparison.xlsx"
              "application/vnd.openxmlformats-officedocument.spreadsheetml.sheet")
  | _, _ => emit (Info "Upload both Excel files to compare.")
  end.

(** ** Two backends to evaluate on *)

(** [str.isspace] of CPython, which [str.strip] and the class [\s] of
    [re] share. *)
Definition py_isspace (c : N) : bool :=
  bool_decide ((9 <= c <= 13)%N \/ (28 <= c <= 32)%N \/ c = 133%N
               \/ c = 160%N \/ c = 5760%N \/ (8192 <= c <= 8202)%N
               \/ c = 8232%N \/ c = 8233%N \/ c = 8239%N \/ c = 8287%N
               \/ c = 12288%N).

(** The Unicode property White_Space. *)
Definition white_space (c : N) : bool :=
  bool_decide ((9 <= c <= 13)%N \/ c = 32%N \/ c = 133%N
               \/ c = 160%N \/ c = 5760%N \/ (8192 <= c <= 8202)%N
               \/ c = 8232%N \/ c = 8233%N \/ c = 8239%N \/ c = 8287%N
               \/ c = 12288%N).

(** The class [\s] of RE2: TAB, LF, FF, CR and the space. *)
Definition re2_space (c : N) : bool :=
  bool_decide (c = 9%N \/ c = 10%N \/ c = 12%N \/ c = 13%N \/ c = 32%N).

(** Upper case on ASCII and Latin-1, the sharp s and the y with
    diaeresis included; a character beyond Latin-1 is left as it is. *)
Definition upper_latin1 (c : N) : list N :=
  if bool_decide (97 <= c <= 122)%N then [(c - 32)%N]
  else if bool_decide (c = 181%N) then [924%N]
  else if bool_decide (c = 223%N) then [83%N; 83%N]
  else if bool_decide ((224 <= c <= 254)%N /\ c <> 247%N) then [(c - 32)%N]
  else if bool_decide (c = 255%N) then [376%N]
  else [c].

(** A writer that takes whatever it is handed: a stand-in for openpyxl
    that knows none of its refusals. *)
Definition write_all (calls : list (list N * DataFrame)) : exn + list sheet :=
  inr (map (fun '(name, df) =>
              {| sheet_name := name; header := columns df;
                 body := map snd (rows df) |}) calls).

(** In the manner of pandas before 3, which holds strings as Python
    objects: [astype(str)] turns a missing value into text, and [strip]
    and [\s] share the whitespace of [str.isspace]. *)
Definition object_strings : Backend :=
  {| astype_keeps_missing := false;
     strip_space := py_isspace;
     re_space := py_isspace;
     upper_of := upper_latin1;
     excel_write := write_all |}.

(** In the manner of pandas 3 with strings in Arrow arrays:
    [astype(str)] keeps a missing value missing, [strip] takes the
    Unicode White_Space characters and [\s] is the class of RE2. *)
Definition arrow_strings : Backend :=
  {| astype_keeps_missing := true;
     strip_space := white_space;
     re_space := re2_space;
     upper_of := upper_latin1;
     excel_write := write_all |}.

(** ** Scenario 1 of the specification *)

Definition named (i : Z) (s : string) : Z * list cell := (i, [CStr (txt s)]).

Definition old1 : DataFrame :=
  {| columns := [NAME_COL]; rows := [named 0 "Alice Tan"; named 1 "Bob Lee"] |}.
Definition new1 : DataFrame :=
  {| columns := [NAME_COL]; rows := [named 0 "ALICE TAN"; named 1 "Carol Ng"] |}.

(** Scenario 1 with a blank name in each dataset. *)
Definition old_blank : DataFrame :=
  {| columns := [NAME_COL];
     rows := [named 0 "Alice Tan"; named 1 "   "; named 2 "Bob Lee"] |}.

Definition new_blank : DataFrame :=
  {| columns := [NAME_COL];
     rows := [named 0 "ALICE TAN"; named 1 ""; named 2 "Carol Ng"] |}.

(** Scenario 1 again, the name column now second and third among other
    columns with other values and another index. *)
Definition old1_wide : DataFrame :=
  {| columns := ["Vendor"; NAME_COL];
     rows := [(10%Z, [CStr (txt "Acme"); CStr (txt "Alice Tan")]);
              (11%Z, [CNaN; CStr (txt "Bob Lee")])] |}.

Definition new1_wide : DataFrame :=
  {| columns := ["Pass No"; "Vendor"; NAME_COL];
     rows := [(0%Z, [CInt 17; CStr (txt "Zenith"); CStr (txt "ALICE TAN")]);
              (1%Z, [CInt 18; CStr (txt "Zenith"); CStr (txt "Carol Ng")])] |}.

(** Scenario 1 with the names spelled otherwise: other case, other
    whitespace. *)
Definition old1_respelled : DataFrame :=
  {| columns := ["Vendor"; NAME_COL];
     rows := [(0%Z, [CStr (txt "Acme"); CStr (txt "ALICE  TAN")]);
              (1%Z, [CStr (txt "Acme"); CStr (txt " bob lee")])] |}.

Definition new1_respelled : DataFrame :=
  {| columns := [NAME_COL];
     rows := [named 0 "alice tan"; named 1 "carol   ng "] |}.

(** A sheet whose header spells the name column otherwise. *)
Definition no_names : DataFrame :=
  {| columns := ["Name"]; rows := [named 0 "Alice Tan"] |}.

(** A result subset of a vendor list that has its own serial numbers. *)
Definition with_serial : DataFrame :=
  {| columns := [SERIAL_COL; NAME_COL];
     rows := [(4%Z, [CInt 5; CStr (txt "Carol Ng")])] |}.

(** The added rows of scenario 1 with a blank name: two rows, index
    labels 2 and 5, a second column. *)
Definition two_rows : DataFrame :=
  {| columns := [NAME_COL; "Vendor"];
     rows := [(2%Z, [CStr (txt "Carol Ng"); CStr (txt "Zenith")]);
              (5%Z, [CStr (txt "Dan Ho"); CNaN])] |}.

(** A name column with an empty cell, a cell that was never filled and
    two blank texts. *)
Definition with_missing : list cell :=
  [CNaN; CNone; CStr []; CStr (txt "   "); CStr (txt "Dan Ho")].

(** ** Notions the statements use *)

(** The value of a row under the name column. *)
Definition name_of (df : DataFrame) (r : Z * list cell) : cell :=
  match col_pos NAME_COL (columns df) with
  | Some i => cell_at i r
  | None => CNaN
  end.

(** The positions where a mask is [True]. *)
Fixpoint positions_from (i : nat) (mask : list bool) : list nat :=
  match mask with
  | [] => []
  | b :: mask' =>
      if b then i :: positions_from (S i) mask' else positions_from (S i) mask'
  end.

Definition positions (mask : list bool) : list nat := positions_from 0 mask.

(** The key set of a normalized column. *)
Definition key_set (norm : list (list N)) : gset (list N) :=
  list_to_set (nonempty_values norm).

(** The table [add_serial_number] builds when the label is free. *)
Definition numbered (df : DataFrame) : DataFrame :=
  {| columns := SERIAL_COL :: columns df;
     rows := imap (fun j r => (Z.of_nat j, CInt (Z.of_nat (S j)) :: r.2))
               (rows df) |}.

(** The two entries the validation can put in its [missing] list. *)
Definition missing_a : string :=
  "Excel A missing column: 'Full Name As Per NRIC'".

Definition missing_b : string :=
  "Excel B missing column: 'Full Name As Per NRIC'".

(** The name column of a frame alone, index labels kept. *)
Definition names_only (df : DataFrame) : DataFrame :=
  {| columns := [NAME_COL];
     rows := map (fun r => (r.1, [name_of df r])) (rows df) |}.

(** What one side of the preview puts on the page. *)
Definition preview_events (title nothing : string) (df : DataFrame)
    : list ui_event :=
  [Markdown title;
   match rows df with
   | [] => Info nothing
   | _ :: _ => Dataframe (names_only df)
   end].

(** The text is printable ASCII: code points 32 to 126. *)
Definition printable (s : list N) : bool :=
  forallb (fun c => bool_decide (32 <= c <= 126)%N) s.

Section Notions.
Context `{B : Backend}.

(** The words of a text: what is between the whitespace runs [\s+]
    matches, once the text is stripped. *)
Definition norm_words (s : list N) : list (list N) :=
  Txt.words re_space (Txt.strip strip_space s).

(** The normalized key of a row. *)
Definition key_of (df : DataFrame) (r : Z * list cell) : list N :=
  normalize_value (name_of df r).

(** [k] is a key of the dataset: not empty, and the normalized name of
    one of its rows. *)
Definition is_key (df : DataFrame) (k : list N) : Prop :=
  k <> [] /\ exists r, r ∈ rows df /\ key_of df r = k.

(** The normalized name column, read off the rows. *)
Definition norm_keys (df : DataFrame) : list (list N) :=
  map (key_of df) (rows df).

(** The row positions a run selects: those added, in the new dataset,
    and those removed, in the old one. *)
Definition selected (df_a df_b : DataFrame) : exn + (list nat * list nat) :=
  c ← compare df_a df_b;
  inr (positions (new_mask_b c), positions (removed_mask_a c)).

(** The added rows, written on the two datasets; the removed rows are
    the added rows of the comparison the other way round. *)
Definition added (df_a df_b : DataFrame) : DataFrame :=
  {| columns := columns df_b;
     rows := filter
               (fun r => key_of df_b r
                         ∈ key_set (norm_keys df_b) ∖ key_set (norm_keys df_a))
               (rows df_b) |}.

Definition removed (df_a df_b : DataFrame) : DataFrame := added df_b df_a.

(** The page of a run that compares, up to the download section. *)
Definition report_events (df_a df_b : DataFrame) : list ui_event :=
  [Subheader "1) Select sheets";
   Subheader "2) Summary";
   Write ("Rows A: " +:+ pretty (len df_a)
          +:+ " | Rows B: " +:+ pretty (len df_b)
          +:+ " | New in Excel B: " +:+ pretty (len (added df_a df_b))
          +:+ " | Removed from Excel A: "
          +:+ pretty (len (removed df_a df_b)));
   Subheader "3) Results (Preview)"]
  ++ preview_events "### 🆕 New in Excel B" "No new names found in Excel B."
       (added df_a df_b)
  ++ preview_events "### ❌ Removed from Excel A"
       "No names removed from Excel A." (removed df_a df_b)
  ++ [Subheader "4) Download results"].

(** The tables the download section hands to the writer: the two
    results, numbered, under the names of their sheets. *)
Definition export_calls (df_a df_b : DataFrame) : list (list N * DataFrame) :=
  [(txt "New_in_Excel_B", numbered (added df_a df_b));
   (txt "Removed_from_Excel_A", numbered (removed df_a df_b))].

(** The end of a run that reaches the writer: the download button with
    the workbook, or the writer's exception. *)
Definition download (df_a df_b : DataFrame) : Script unit :=
  match excel_write (export_calls df_a df_b) with
  | inr workbook =>
      ([DownloadButton "Download comparison (XLSX)" workbook
          "nric_name_comparison.xlsx"
          "application/vnd.openxmlformats-officedocument.spreadsheetml.sheet"],
       Done tt)
  | inl e => ([], Uncaught e)
  end.

End Notions.

(** * Properties *)

(** ** Text *)

Module TxtFacts.
Import Txt.

Section One.
Variable sp : N -> bool.

Lemma is_empty_true (s : list N) : is_empty s = true -> s = [].
Proof. by destruct s. Qed.

(** *** Trimming *)

Lemma rstrip_empty s : is_empty (rstrip sp s) = all_space sp s.
Proof.
  induction s as [|c s IH]; simpl; [done|].
  rewrite IH. by destruct (sp c), (all_space sp s).
Qed.

Lemma rstrip_all_space s : all_space sp s = true -> rstrip sp s = [].
Proof. intros H. apply is_empty_true. by rewrite rstrip_empty. Qed.

Lemma lstrip_all_space s : all_space sp s = true -> lstrip sp s = [].
Proof.
  induction s as [|c s IH]; simpl; [done|].
  destruct (sp c); simpl; [done|discriminate].
Qed.

Lemma lstrip_starts_ws s : starts_ws sp (lstrip sp s) = false.
Proof.
  induction s as [|c s IH]; simpl; [done|].
  destruct (sp c) eqn:E; [done|]. simpl. by rewrite E.
Qed.

Lemma lstrip_split s :
  exists p, s = p ++ lstrip sp s /\ all_space sp p = true.
Proof.
  induction s as [|c s [p [Hs Hp]]]; simpl.
  - by exists [].
  - destruct (sp c) eqn:E.
    + exists (c :: p). simpl. rewrite E, Hp. by rewrite <- Hs.
    + by exists [].
Qed.

Lemma rstrip_split s :
  exists q, s = rstrip sp s ++ q /\ all_space sp q = true.
Proof.
  induction s as [|c s [q [Hs Hq]]]; simpl.
  - by exists [].
  - destruct (sp c && is_empty (rstrip sp s)) eqn:E.
    + exists (c :: s). split; [done|].
      apply andb_true_iff in E as [E1 E2]. simpl.
      rewrite E1. simpl. by rewrite <- rstrip_empty.
    + exists q. simpl. by rewrite <- Hs.
Qed.

Lemma rstrip_idem s : rstrip sp (rstrip sp s) = rstrip sp s.
Proof.
  induction s as [|c s IH]; simpl; [done|].
  destruct (sp c && is_empty (rstrip sp s)) eqn:E; simpl; [done|].
  by rewrite IH, E.
Qed.

Lemma rstrip_starts_ws s :
  starts_ws sp s = false -> starts_ws sp (rstrip sp s) = false.
Proof.
  destruct s as [|c s]; simpl; [done|]. intros E. by rewrite E.
Qed.

Lemma lstrip_id s : starts_ws sp s = false -> lstrip sp s = s.
Proof. destruct s as [|c s]; simpl; [done|]. by intros ->. Qed.

Lemma strip_starts_ws s : starts_ws sp (strip sp s) = false.
Proof. apply rstrip_starts_ws, lstrip_starts_ws. Qed.

Lemma ends_ws_cons c s : s <> [] -> ends_ws sp (c :: s) = ends_ws sp s.
Proof. unfold ends_ws. by destruct s. Qed.

Lemma rstrip_id s : ends_ws sp s = false -> rstrip sp s = s.
Proof.
  induction s as [|c s IH]; [done|].
  destruct (decide (s = [])) as [->|Hne].
  - unfold ends_ws. simpl. by intros ->.
  - rewrite ends_ws_cons by done. intros H. simpl. rewrite (IH H).
    destruct s; [done|]. by rewrite andb_false_r.
Qed.

Lemma rstrip_ends_ws s : ends_ws sp (rstrip sp s) = false.
Proof.
  induction s as [|c s IH]; [done|]. cbn [rstrip].
  destruct (sp c && is_empty (rstrip sp s)) eqn:E; [done|].
  destruct (rstrip sp s) as [|d r] eqn:Er.
  - unfold ends_ws. simpl. rewrite andb_true_r in E. exact E.
  - by rewrite ends_ws_cons.
Qed.

Lemma strip_ends_ws s : ends_ws sp (strip sp s) = false.
Proof. apply rstrip_ends_ws. Qed.

(** [strip] takes whitespace off both ends, all of it and nothing else. *)
Lemma strip_spec s :
  (exists p q, s = p ++ strip sp s ++ q
     /\ all_space sp p = true /\ all_space sp q = true)
  /\ starts_ws sp (strip sp s) = false /\ ends_ws sp (strip sp s) = false
  /\ lstrip sp (strip sp s) = strip sp s
  /\ rstrip sp (strip sp s) = strip sp s.
Proof.
  split; [|split; [|split; [|split]]].
  - destruct (lstrip_split s) as [p [Hs Hp]].
    destruct (rstrip_split (lstrip sp s)) as [q [Hq1 Hq2]].
    exists p, q. unfold strip. by rewrite <- Hq1.
  - apply strip_starts_ws.
  - apply strip_ends_ws.
  - apply lstrip_id, strip_starts_ws.
  - apply rstrip_idem.
Qed.

Lemma strip_all_space s : all_space sp s = true -> strip sp s = [].
Proof. intros H. unfold strip. by rewrite lstrip_all_space. Qed.

Lemma strip_nil_inv s : strip sp s = [] -> all_space sp s = true.
Proof.
  unfold strip. intros H.
  assert (A : all_space sp (lstrip sp s) = true)
    by (by rewrite <- rstrip_empty, H).
  clear H. induction s as [|c s IH]; [done|]. simpl in *.
  destruct (sp c) eqn:E; simpl in *; [by apply IH|].
  by rewrite E in A.
Qed.

Lemma strip_id s :
  starts_ws sp s = false -> ends_ws sp s = false -> strip sp s = s.
Proof. intros H1 H2. unfold strip. by rewrite lstrip_id, rstrip_id. Qed.

(** *** Words *)

Lemma words_all_space s : all_space sp s = true -> words sp s = [].
Proof.
  induction s as [|c s IH]; simpl; [done|].
  destruct (sp c); simpl; [done|discriminate].
Qed.

Lemma words_not_nil s : all_space sp s = false -> words sp s <> [].
Proof.
  induction s as [|c s IH]; simpl; [done|].
  destruct (sp c); simpl; [done|]. intros _.
  destruct (starts_space sp s); [done|]. by destruct (words sp s).
Qed.

Lemma words_lstrip s : words sp (lstrip sp s) = words sp s.
Proof.
  induction s as [|c s IH]; simpl; [done|].
  destruct (sp c) eqn:E; [done|]. simpl. by rewrite E.
Qed.

Lemma words_are_words s : Forall (fun w => is_word sp w = true) (words sp s).
Proof.
  induction s as [|c s IH]; simpl; [by constructor|].
  destruct (sp c) eqn:E; [done|].
  destruct (starts_space sp s).
  - constructor; [|done]. unfold is_word. simpl. by rewrite E.
  - destruct (words sp s) as [|w ws].
    + constructor; [|done]. unfold is_word. simpl. by rewrite E.
    + inversion IH as [|? ? Hw Hws]; subst. constructor; [|done].
      unfold is_word in *. simpl. rewrite E. simpl.
      by apply andb_true_iff in Hw as [_ ->].
Qed.

Lemma join_cons_char sep c w ws :
  join sep ((c :: w) :: ws) = c :: join sep (w :: ws).
Proof. by destruct ws. Qed.

Lemma join_cons sep w ws :
  ws <> [] -> join sep (w :: ws) = w ++ sep ++ join sep ws.
Proof. by destruct ws. Qed.

Lemma words_cons_word c t :
  sp c = false ->
  join space (words sp (c :: t)) =
  c :: (if starts_ws sp t && negb (all_space sp t)
        then 32%N :: join space (words sp t) else join space (words sp t)).
Proof.
  intros E. simpl. rewrite E. destruct t as [|d t']; [done|].
  assert (S1 : starts_space sp (d :: t') = sp d) by done.
  assert (S2 : starts_ws sp (d :: t') = sp d) by done.
  assert (S3 : sp d = false -> all_space sp (d :: t') = false)
    by (intros H; simpl; by rewrite H).
  revert S1 S2 S3. generalize (d :: t'). intros t -> -> S3.
  destruct (sp d) eqn:D; cbn [andb].
  - destruct (all_space sp t) eqn:A; cbn [negb].
    + by rewrite (words_all_space _ A).
    + rewrite join_cons by by apply words_not_nil. done.
  - pose proof (words_not_nil _ (S3 eq_refl)) as Hne.
    destruct (words sp t) as [|w ws]; [done|].
    by rewrite join_cons_char.
Qed.

(** Substituting the whitespace runs of a right-trimmed text leaves its
    words, one space between two of them, and one space in front when
    the text opens with whitespace and the scan is not inside a run. *)
Lemma sub_ws_rstrip s :
  sub_ws_go sp true (rstrip sp s) = join space (words sp s)
  /\ sub_ws_go sp false (rstrip sp s) =
       if starts_ws sp s && negb (all_space sp s)
       then 32%N :: join space (words sp s) else join space (words sp s).
Proof.
  induction s as [|c s [IH1 IH2]]; [done|].
  cbn [rstrip]. destruct (sp c) eqn:E.
  - rewrite rstrip_empty. cbn [starts_ws all_space words]. rewrite E.
    destruct (all_space sp s) eqn:A; simpl.
    + by rewrite words_all_space.
    + by rewrite E, IH1.
  - cbn [andb sub_ws_go starts_ws]. rewrite E, IH2.
    cbn [andb]. by rewrite words_cons_word.
Qed.

(** A text with whitespace at neither end becomes its words, one space
    between two of them. *)
Lemma sub_ws_tidy s :
  starts_ws sp s = false -> ends_ws sp s = false ->
  sub_ws sp s = join space (words sp s).
Proof.
  intros H1 H2. unfold sub_ws.
  destruct (sub_ws_rstrip s) as [_ H]. rewrite (rstrip_id s H2) in H.
  by rewrite H, H1.
Qed.

(** A word followed by nothing, or by text that opens with whitespace,
    is the first word of the whole. *)
Lemma words_word_app w t :
  is_word sp w = true -> starts_space sp t = true ->
  words sp (w ++ t) = w :: words sp t.
Proof.
  intros Hw Ht. induction w as [|c w IH]; [done|].
  unfold is_word in Hw. simpl in Hw.
  destruct (sp c) eqn:E; [done|]. simpl in Hw.
  simpl. rewrite E. destruct w as [|d w].
  - simpl. by rewrite Ht.
  - simpl in Hw. destruct (sp d) eqn:D; [done|].
    change (starts_space sp ((d :: w) ++ t)) with (sp d). rewrite D.
    rewrite IH; [done|]. unfold is_word. simpl. by rewrite D.
Qed.

Lemma words_join ws :
  sp 32 = true ->
  Forall (fun w => is_word sp w = true) ws -> words sp (join space ws) = ws.
Proof.
  intros Hsp. induction 1 as [|w ws Hw Hws IH]; [done|].
  destruct ws as [|w' ws].
  - simpl. rewrite <- (app_nil_r w) at 1. by rewrite words_word_app.
  - rewrite join_cons by done. rewrite words_word_app by done.
    simpl. rewrite Hsp. f_equal. exact IH.
Qed.

Lemma join_nil_inv ws :
  Forall (fun w => is_word sp w = true) ws -> join space ws = [] -> ws = [].
Proof.
  destruct 1 as [|w ws Hw _]; [done|].
  destruct w as [|c w]; [done|]. by rewrite join_cons_char.
Qed.

Lemma join_inj ws ws' :
  sp 32 = true ->
  Forall (fun w => is_word sp w = true) ws ->
  Forall (fun w => is_word sp w = true) ws' ->
  join space ws = join space ws' -> ws = ws'.
Proof.
  intros Hsp H H' E.
  by rewrite <- (words_join ws Hsp H), <- (words_join ws' Hsp H'), E.
Qed.

Lemma sub_ws_go_no_space b s :
  has_space sp s = false -> sub_ws_go sp b s = s.
Proof.
  revert b. induction s as [|c s IH]; intros b; [done|]. simpl.
  intros [-> H]%orb_false_iff. by rewrite IH.
Qed.

Lemma lstrip_app_space p s :
  all_space sp p = true -> lstrip sp (p ++ s) = lstrip sp s.
Proof.
  induction p as [|c p IH]; [done|]. simpl.
  intros [-> H]%andb_true_iff. by apply IH.
Qed.

Lemma rstrip_app_space s q :
  all_space sp q = true -> rstrip sp (s ++ q) = rstrip sp s.
Proof.
  intros Hq. induction s as [|c s IH]; [by apply rstrip_all_space|].
  simpl. by rewrite IH.
Qed.

Lemma lstrip_app s q :
  all_space sp q = true ->
  lstrip sp (s ++ q) = lstrip sp s ++ q \/ all_space sp s = true.
Proof.
  intros Hq. induction s as [|c s IH]; [by right|]. simpl.
  destruct (sp c); [|by left]. destruct IH; [by left|by right].
Qed.

Lemma all_space_app s q :
  all_space sp s = true -> all_space sp q = true ->
  all_space sp (s ++ q) = true.
Proof.
  intros Hs Hq. induction s as [|c s IH]; [done|]. simpl in *.
  apply andb_true_iff in Hs as [-> Hs]. by apply IH.
Qed.

(** Whitespace around a text is stripped with the text's own. *)
Lemma strip_padded p s q :
  all_space sp p = true -> all_space sp q = true ->
  strip sp (p ++ s ++ q) = strip sp s.
Proof.
  intros Hp Hq. unfold strip. rewrite lstrip_app_space by done.
  destruct (lstrip_app s q Hq) as [->|Hs].
  - by apply rstrip_app_space.
  - rewrite (lstrip_all_space s Hs).
    by rewrite lstrip_all_space by by apply all_space_app.
Qed.

End One.

(** *** Two classes of whitespace, one within the other *)

Section Two.
Variables sp1 sp2 : N -> bool.
Hypothesis sub : forall c, sp2 c = true -> sp1 c = true.

Lemma not_sp2 c : sp1 c = false -> sp2 c = false.
Proof. intros H. destruct (sp2 c) eqn:E; [|done]. by rewrite (sub c E) in H. Qed.

Lemma starts_ws_mono s : starts_ws sp1 s = false -> starts_ws sp2 s = false.
Proof. destruct s as [|c s]; [done|]. apply not_sp2. Qed.

Lemma ends_ws_mono s : ends_ws sp1 s = false -> ends_ws sp2 s = false.
Proof. unfold ends_ws. destruct (last s) as [c|]; [|done]. apply not_sp2. Qed.

End Two.

(** *** Upper case *)

Section Upper.
Variable up : N -> list N.

Lemma upper_app s t : upper up (s ++ t) = upper up s ++ upper up t.
Proof.
  induction s as [|c s IH]; simpl; [done|]. by rewrite IH, app_assoc.
Qed.

Lemma upper_join ws :
  up 32 = [32%N] ->
  upper up (join space ws) = join space (map (upper up) ws).
Proof.
  intros Hup. induction ws as [|w ws IH]; [done|].
  destruct ws as [|w' ws]; [done|].
  rewrite join_cons by done. rewrite !upper_app, IH.
  change (map (upper up) (w :: w' :: ws))
    with (upper up w :: map (upper up) (w' :: ws)).
  rewrite (join_cons _ (upper up w)) by done.
  simpl. by rewrite Hup.
Qed.

Lemma upper_idem s :
  (forall c, upper up (up c) = up c) -> upper up (upper up s) = upper up s.
Proof.
  intros H. induction s as [|c s IH]; simpl; [done|].
  by rewrite upper_app, H, IH.
Qed.

Lemma upper_fixed s : Forall (fun c => up c = [c]) s -> upper up s = s.
Proof. induction 1 as [|c s Hc _ IH]; simpl; [done|]. by rewrite Hc, IH. Qed.

End Upper.

End TxtFacts.

(** ** The sample backends *)

Lemma py_isspace_32 : py_isspace 32 = true.
Proof. done. Qed.

Global Instance object_strings_ok : BackendOk object_strings.
Proof.
  split; cbn [strip_space re_space upper_of object_strings].
  - done.
  - done.
  - intros c Hc. unfold py_isspace. apply bool_decide_eq_false. lia.
  - intros c Hc. unfold upper_latin1.
    destruct (N.leb_spec 97 c), (N.leb_spec c 122); cbn [andb];
      repeat case_bool_decide; try lia; done.
  - intros c Hc. unfold py_isspace in Hc. apply bool_decide_eq_true in Hc.
    unfold upper_latin1. repeat case_bool_decide; try lia; done.
  - intros c Hc. unfold py_isspace in Hc. apply bool_decide_eq_false in Hc.
    unfold upper_latin1, py_isspace.
    repeat case_bool_decide; (split; [done|]);
      repeat constructor; apply bool_decide_eq_false; lia.
  - intros c. unfold upper_latin1.
    repeat case_bool_decide; cbn [Txt.upper app];
      repeat case_bool_decide; try lia; try done; f_equal; lia.
Qed.

Global Instance arrow_strings_ok : BackendOk arrow_strings.
Proof.
  split; cbn [strip_space re_space upper_of arrow_strings].
  - done.
  - intros c Hc. unfold re2_space in Hc. apply bool_decide_eq_true in Hc.
    unfold white_space. apply bool_decide_eq_true. lia.
  - intros c Hc. unfold white_space. apply bool_decide_eq_false. lia.
  - intros c Hc. unfold upper_latin1.
    destruct (N.leb_spec 97 c), (N.leb_spec c 122); cbn [andb];
      repeat case_bool_decide; try lia; done.
  - intros c Hc. unfold white_space in Hc. apply bool_decide_eq_true in Hc.
    unfold upper_latin1. repeat case_bool_decide; try lia; done.
  - intros c Hc. unfold white_space in Hc. apply bool_decide_eq_false in Hc.
    unfold upper_latin1, white_space.
    repeat case_bool_decide; (split; [done|]);
      repeat constructor; apply bool_decide_eq_false; lia.
  - intros c. unfold upper_latin1.
    repeat case_bool_decide; cbn [Txt.upper app];
      repeat case_bool_decide; try lia; try done; f_equal; lia.
Qed.

(** ** The Normalizer *)

Section NormalizerFacts.
Import Txt TxtFacts.
Context `{B : Backend}.

(** A cell goes through the Normalizer as the text [fillna] leaves. *)
Lemma normalize_value_text (x : cell) :
  normalize_value x = normalize (fillna [] (astype_str x)).
Proof. done. Qed.

Lemma normalize_steps (s : list N) :
  normalize s = upper upper_of (sub_ws re_space (strip strip_space s)).
Proof. done. Qed.

Lemma normalize_blank (s : list N) :
  all_space strip_space s = true -> normalize s = [].
Proof. intros H. by rewrite normalize_steps, strip_all_space. Qed.


Lemma normalize_name_lookup (s : list cell) (i : nat) (x : cell) :
  s !! i = Some x -> normalize_name s !! i = Some (normalize_value x).
Proof.
  intros H. unfold normalize_name.
  change (map normalize_value s) with (normalize_value <$> s).
  by rewrite list_lookup_fmap, H.
Qed.


(** A blank text gets the empty string under every backend. *)
Lemma normalize_name_blank (s : list cell) (i : nat) (t : list N) :
  s !! i = Some (CStr t) -> all_space strip_space t = true ->
  normalize_name s !! i = Some [].
Proof.
  intros Hi Ht. rewrite (normalize_name_lookup _ _ _ Hi).
  f_equal. by apply normalize_blank.
Qed.

Context {HB : BackendOk B}.

Lemma ok_re_space_32 : re_space 32 = true.
Proof. apply ok_space. Qed.

Lemma ok_strip_space_32 : strip_space 32 = true.
Proof. apply ok_space. Qed.

Lemma ok_upper_32 : upper_of 32 = [32%N].
Proof. apply ok_upper_space, ok_strip_space_32. Qed.

Lemma ok_not_re (c : N) : strip_space c = false -> re_space c = false.
Proof. apply not_sp2, ok_re_strip. Qed.

(** The upper-case form of a character [\s] does not match is not empty
    and has no character [\s] matches. *)
Lemma ok_upper_word (c : N) :
  re_space c = false ->
  upper_of c <> [] /\ Forall (fun d => re_space d = false) (upper_of c).
Proof.
  intros Hc. destruct (strip_space c) eqn:E.
  - rewrite (ok_upper_space c E). split; [done|]. by repeat constructor.
  - destruct (ok_upper_other c E) as [H1 H2]. split; [done|].
    eapply Forall_impl; [exact H2|]. intros d. apply ok_not_re.
Qed.

Lemma upper_has_space (w : list N) :
  has_space re_space w = false ->
  has_space re_space (upper upper_of w) = false.
Proof.
  induction w as [|c w IH]; [done|]. simpl.
  intros [Hc Hw]%orb_false_iff. specialize (IH Hw).
  destruct (ok_upper_word c Hc) as [_ H].
  induction H as [|d ds Hd _ IHd]; [done|]. simpl. by rewrite Hd.
Qed.

Lemma upper_is_word (w : list N) :
  is_word re_space w = true -> is_word re_space (upper upper_of w) = true.
Proof.
  unfold is_word. intros [H1 H2]%andb_true_iff.
  apply negb_true_iff in H2. rewrite (upper_has_space w H2).
  destruct w as [|c w]; [done|]. simpl in H2.
  apply orb_false_iff in H2 as [Hc _].
  destruct (ok_upper_word c Hc) as [Hne _]. simpl.
  by destruct (upper_of c).
Qed.

Lemma upper_words_are_words (s : list N) :
  Forall (fun w => is_word re_space w = true)
    (map (upper upper_of) (norm_words s)).
Proof.
  apply Forall_fmap. eapply Forall_impl; [apply words_are_words|].
  intros w Hw. by apply upper_is_word.
Qed.

(** What [strip] leaves has nothing at its ends that [\s] matches. *)
Lemma strip_tidy_re (s : list N) :
  starts_ws re_space (strip strip_space s) = false
  /\ ends_ws re_space (strip strip_space s) = false.
Proof.
  split.
  - apply (starts_ws_mono strip_space), strip_starts_ws. apply ok_re_strip.
  - apply (ends_ws_mono strip_space), strip_ends_ws. apply ok_re_strip.
Qed.

Lemma sub_ws_strip (s : list N) :
  sub_ws re_space (strip strip_space s) = join space (norm_words s).
Proof. destruct (strip_tidy_re s). by apply sub_ws_tidy. Qed.

(** The normal form: the words of the text in upper case, one space
    between two of them. *)
Lemma normalize_words (s : list N) :
  normalize s = join space (map (upper upper_of) (norm_words s)).
Proof.
  rewrite normalize_steps, sub_ws_strip. apply upper_join, ok_upper_32.
Qed.

(** *** The ends of a key *)

Lemma sub_ws_starts (s : list N) :
  starts_ws strip_space s = false ->
  starts_ws strip_space (sub_ws re_space s) = false.
Proof.
  destruct s as [|c s]; [done|]. unfold sub_ws. simpl. intros Hc.
  by rewrite (ok_not_re c Hc).
Qed.

Lemma sub_ws_go_last (b : bool) (s : list N) :
  ends_ws re_space s = false -> last (sub_ws_go re_space b s) = last s.
Proof.
  revert b. induction s as [|c s IH]; intros b; [done|].
  destruct (decide (s = [])) as [->|Hne].
  - unfold ends_ws. simpl. by intros ->.
  - rewrite ends_ws_cons by done. intros H.
    assert (L : forall y b', last (y :: sub_ws_go re_space b' s) = last s).
    { intros y b'. rewrite last_cons, (IH b' H).
      destruct (last s) eqn:E; [done|]. by apply last_None in E. }
    rewrite (last_cons c s).
    destruct (last s) as [z|] eqn:E; [|by apply last_None in E].
    simpl. destruct (re_space c); [destruct b|].
    + by rewrite (IH true H).
    + by rewrite L.
    + by rewrite L.
Qed.

Lemma sub_ws_ends (s : list N) :
  ends_ws strip_space s = false ->
  ends_ws strip_space (sub_ws re_space s) = false.
Proof.
  intros H. unfold ends_ws, sub_ws.
  rewrite sub_ws_go_last; [exact H|].
  apply (ends_ws_mono strip_space); [apply ok_re_strip|done].
Qed.

Lemma upper_starts (s : list N) :
  starts_ws strip_space s = false ->
  starts_ws strip_space (upper upper_of s) = false.
Proof.
  destruct s as [|c s]; [done|]. simpl. intros Hc.
  destruct (ok_upper_other c Hc) as [Hne H].
  destruct H as [|d ds Hd _]; [done|]. exact Hd.
Qed.

Lemma upper_ends (s : list N) :
  ends_ws strip_space s = false ->
  ends_ws strip_space (upper upper_of s) = false.
Proof.
  unfold ends_ws. destruct (last s) as [c|] eqn:E.
  - intros Hc. apply last_Some in E as [s' ->].
    rewrite upper_app, last_app. simpl. rewrite app_nil_r.
    destruct (ok_upper_other c Hc) as [Hne H].
    destruct (last (upper_of c)) as [d|] eqn:Ed; [|by apply last_None in Ed].
    apply last_Some_elem_of in Ed. rewrite Forall_forall in H. by apply H.
  - apply last_None in E as ->. done.
Qed.

Lemma normalize_tidy (s : list N) :
  starts_ws strip_space (normalize s) = false
  /\ ends_ws strip_space (normalize s) = false.
Proof.
  rewrite normalize_steps. split.
  - apply upper_starts, sub_ws_starts, strip_starts_ws.
  - apply upper_ends, sub_ws_ends, strip_ends_ws.
Qed.

Lemma strip_normalize (s : list N) :
  strip strip_space (normalize s) = normalize s.
Proof. destruct (normalize_tidy s). by apply strip_id. Qed.

Lemma norm_words_normalize (s : list N) :
  norm_words (normalize s) = map (upper upper_of) (norm_words s).
Proof.
  unfold norm_words at 1. rewrite strip_normalize, normalize_words.
  apply words_join; [apply ok_re_space_32|apply upper_words_are_words].
Qed.

Lemma upper_upper_words (s : list N) :
  map (upper upper_of) (map (upper upper_of) (norm_words s))
  = map (upper upper_of) (norm_words s).
Proof.
  rewrite map_map. apply map_ext. intros w. apply upper_idem, ok_upper_idem.
Qed.

(** *** Printable ASCII *)

Lemma printable_Forall (s : list N) :
  printable s = true <-> Forall (fun c => (32 <= c <= 126)%N) s.
Proof.
  unfold printable. rewrite forallb_forall, Forall_forall.
  split; intros H c Hc.
  - apply list_elem_of_In, H in Hc. by apply bool_decide_eq_true in Hc.
  - apply bool_decide_eq_true, H. by apply list_elem_of_In.
Qed.

End NormalizerFacts.

(** *** Backends that agree on the characters of a text *)

Section Agree.
Import Txt TxtFacts.
Variables sp sp' : N -> bool.

Lemma lstrip_ext (s : list N) :
  Forall (fun c => sp c = sp' c) s -> lstrip sp s = lstrip sp' s.
Proof.
  induction 1 as [|c s Hc _ IH]; [done|]. simpl. by rewrite Hc, IH.
Qed.

Lemma rstrip_ext (s : list N) :
  Forall (fun c => sp c = sp' c) s -> rstrip sp s = rstrip sp' s.
Proof.
  induction 1 as [|c s Hc _ IH]; [done|]. simpl. by rewrite Hc, IH.
Qed.

Lemma sub_ws_go_ext (b : bool) (s : list N) :
  Forall (fun c => sp c = sp' c) s -> sub_ws_go sp b s = sub_ws_go sp' b s.
Proof.
  intros H. revert b. induction H as [|c s Hc _ IH]; intros b; [done|].
  simpl. by rewrite Hc, !IH.
Qed.

Lemma Forall_lstrip (P : N -> Prop) (s : list N) :
  Forall P s -> Forall P (lstrip sp s).
Proof.
  induction 1 as [|c s Hc Hs IH]; [done|]. simpl.
  destruct (sp c); [done|by constructor].
Qed.

Lemma Forall_rstrip (P : N -> Prop) (s : list N) :
  Forall P s -> Forall P (rstrip sp s).
Proof.
  induction 1 as [|c s Hc Hs IH]; [done|]. simpl.
  destruct (sp c && is_empty (rstrip sp s)); [done|by constructor].
Qed.

Lemma Forall_sub_ws_go (P : N -> Prop) (b : bool) (s : list N) :
  P 32%N -> Forall P s -> Forall P (sub_ws_go sp b s).
Proof.
  intros H32 H. revert b. induction H as [|c s Hc _ IH]; intros b; [done|].
  simpl. destruct (sp c); [destruct b|]; try constructor; auto.
Qed.

Lemma upper_ext (up up' : N -> list N) (s : list N) :
  Forall (fun c => up c = up' c) s -> upper up s = upper up' s.
Proof.
  induction 1 as [|c s Hc _ IH]; [done|]. simpl. by rewrite Hc, IH.
Qed.

End Agree.

(** On printable ASCII the assumptions leave no choice. *)
Lemma ok_printable (B : Backend) `{!BackendOk B} (c : N) :
  (32 <= c <= 126)%N ->
  strip_space c = bool_decide (c = 32%N)
  /\ re_space c = bool_decide (c = 32%N)
  /\ upper_of c = [if ((97 <=? c)%N && (c <=? 122)%N) then (c - 32)%N else c].
Proof.
  intros Hc. split; [|split; [|apply ok_upper_ascii; lia]].
  - case_bool_decide as E; [rewrite E; apply ok_space|apply ok_graph; lia].
  - case_bool_decide as E; [rewrite E; apply ok_space|].
    apply ok_not_re, ok_graph. lia.
Qed.

(** Two backends that meet the assumptions give a printable ASCII text
    the same key. *)
Lemma normalize_printable (B B' : Backend)
    `{!BackendOk B} `{!BackendOk B'} (s : list N) :
  printable s = true -> @normalize B s = @normalize B' s.
Proof.
  intros H%printable_Forall.
  set (P := fun c : N => (32 <= c <= 126)%N) in *.
  assert (A : forall c, P c ->
            @strip_space B c = @strip_space B' c
            /\ @re_space B c = @re_space B' c
            /\ @upper_of B c = @upper_of B' c).
  { intros c Hc. destruct (ok_printable B c Hc) as (-> & -> & ->).
    by destruct (ok_printable B' c Hc) as (-> & -> & ->). }
  assert (F : forall (Q : N -> Prop) l, (forall c, P c -> Q c) ->
                Forall P l -> Forall Q l).
  { intros Q l HQ Hl. eapply Forall_impl; [exact Hl|exact HQ]. }
  rewrite !normalize_steps. unfold Txt.strip.
  rewrite (lstrip_ext (@strip_space B) (@strip_space B') s)
    by (apply F; [intros c Hc; by apply A|done]).
  pose proof (Forall_lstrip (@strip_space B') P s H) as H1.
  rewrite (rstrip_ext (@strip_space B) (@strip_space B') _)
    by (apply F; [intros c Hc; by apply A|done]).
  pose proof (Forall_rstrip (@strip_space B') P _ H1) as H2.
  unfold Txt.sub_ws.
  rewrite (sub_ws_go_ext (@re_space B) (@re_space B') false _)
    by (apply F; [intros c Hc; by apply A|done]).
  assert (P32 : P 32%N) by (unfold P; lia).
  pose proof (Forall_sub_ws_go (@re_space B') P false _ P32 H2) as H3.
  apply upper_ext. apply F; [intros c Hc; by apply A|done].
Qed.

Section NormalizerClaims.
Import Txt TxtFacts.
Context `{B : Backend} {HB : BackendOk B}.

(** C5: [normalize] trims the whitespace at both ends (what [strip]
    leaves has whitespace at neither end and differs from the input by
    whitespace around it), replaces every run of whitespace inside by
    one space (the trimmed text becomes its words joined by single
    spaces) and upper-cases the words; the two examples of the
    specification evaluate as stated.  Whitespace is what the library
    takes for it: the characters [strip] strips at the ends, the
    characters [\s] matches inside. *)
Theorem normalize_trims_collapses_uppercases :
  (forall s : list N,
      ((exists p q, s = p ++ strip strip_space s ++ q
          /\ all_space strip_space p = true /\ all_space strip_space q = true)
       /\ starts_ws strip_space (strip strip_space s) = false
       /\ ends_ws strip_space (strip strip_space s) = false
       /\ lstrip strip_space (strip strip_space s) = strip strip_space s
       /\ rstrip strip_space (strip strip_space s) = strip strip_space s)
      /\ sub_ws re_space (strip strip_space s) = join space (norm_words s)
      /\ Forall (fun w => is_word re_space w = true) (norm_words s)
      /\ normalize s = join space (map (upper upper_of) (norm_words s)))
  /\ normalize (txt "  John   Tan ") = txt "JOHN TAN"
  /\ normalize (txt "john tan") = normalize (txt "JOHN TAN").
Proof.
  split; [|split].
  - intros s. split; [apply strip_spec|].
    split; [apply sub_ws_strip|].
    split; [apply words_are_words|apply normalize_words].
  - by rewrite (normalize_printable B object_strings).
  - by rewrite !(normalize_printable B object_strings).
Qed.

(** C6: normalizing a normalized text changes nothing. *)
Theorem normalize_idempotent (s : list N) :
  normalize (normalize s) = normalize s.
Proof.
  rewrite (normalize_words (normalize s)), norm_words_normalize.
  by rewrite upper_upper_words, normalize_words.
Qed.

(** X1: two texts get the same key exactly when they have the same
    words once the words are in upper case. *)
Theorem normalize_eq_iff (s t : list N) :
  normalize s = normalize t
  <-> map (upper upper_of) (norm_words s) = map (upper upper_of) (norm_words t).
Proof.
  rewrite !normalize_words. split; [|by intros ->].
  apply (join_inj re_space);
    [apply ok_re_space_32|apply upper_words_are_words..].
Qed.

(** The key of a text is empty only when [strip] leaves nothing of the
    text. *)
Lemma normalize_nil_inv (s : list N) :
  normalize s = [] -> all_space strip_space s = true.
Proof.
  rewrite normalize_words. intros H.
  apply (join_nil_inv re_space) in H; [|apply upper_words_are_words].
  apply fmap_nil_inv in H.
  apply strip_nil_inv. destruct (strip_tidy_re s) as [H1 _].
  destruct (strip strip_space s) as [|c r] eqn:E; [done|].
  unfold norm_words in H. rewrite E in H. simpl in H1.
  simpl in H. by rewrite H1 in H; repeat case_match.
Qed.

(** X2: the key of a cell is empty exactly when the cell is missing and
    [astype(str)] keeps it missing, or the text of the cell is empty or
    all whitespace. *)
Theorem normalize_value_empty_iff (x : cell) :
  normalize_value x = []
  <-> (astype_keeps_missing = true /\ is_missing x = true)
      \/ all_space strip_space (py_str x) = true.
Proof.
  rewrite normalize_value_text. unfold astype_str.
  destruct (is_missing x && astype_keeps_missing) eqn:E; cbn [fillna].
  - apply andb_true_iff in E as [E1 E2]. split; [by left|done].
  - split; [right; by apply normalize_nil_inv|].
    intros [[E1 E2]|H]; [by rewrite E1, E2 in E|by apply normalize_blank].
Qed.

(** X3: a key has nothing left to normalize: stripping it, substituting
    its whitespace runs and upper-casing it each give the key back. *)
Theorem normalize_value_tidy (x : cell) :
  strip strip_space (normalize_value x) = normalize_value x
  /\ sub_ws re_space (normalize_value x) = normalize_value x
  /\ upper upper_of (normalize_value x) = normalize_value x.
Proof.
  rewrite normalize_value_text. set (s := fillna [] (astype_str x)).
  split; [apply strip_normalize|]. split.
  - rewrite <- (strip_normalize s) at 1. rewrite sub_ws_strip.
    by rewrite norm_words_normalize, normalize_words.
  - rewrite normalize_steps. apply upper_idem, ok_upper_idem.
Qed.

End NormalizerClaims.

(** X5: whitespace put before or after a text does not change its
    key. *)
Theorem normalize_ignores_padding `{B : Backend} (p s q : list N) :
  Txt.all_space strip_space p = true -> Txt.all_space strip_space q = true ->
  normalize (p ++ s ++ q) = normalize s.
Proof.
  intros Hp Hq. rewrite !normalize_steps.
  by rewrite TxtFacts.strip_padded.
Qed.

(** *** Decimal numerals *)

Lemma txt_inj (s t : string) : txt s = txt t -> s = t.
Proof.
  revert t. induction s as [|c s IH]; intros [|d t]; simpl; try done.
  intros [= Hc Hs]. f_equal; [|by apply IH].
  by rewrite <- (ascii_N_embedding c), <- (ascii_N_embedding d), Hc.
Qed.

Lemma pretty_N_char_digit (d : N) :
  (48 <= N_of_ascii (pretty_N_char d) <= 57)%N.
Proof.
  unfold pretty_N_char.
  repeat case_match;
    match goal with
    | |- (_ <= N_of_ascii ?a <= _)%N =>
        let n := eval vm_compute in (N_of_ascii a) in
        change (N_of_ascii a) with n
    end; lia.
Qed.

(** The characters of a numeral are digits, after a minus sign at
    most. *)
Lemma pretty_N_go_digits (x : N) (s : string) :
  Forall (fun c => (c = 45 \/ 48 <= c <= 57)%N) (txt s) ->
  Forall (fun c => (c = 45 \/ 48 <= c <= 57)%N) (txt (pretty_N_go x s))
  /\ (s <> "" -> pretty_N_go x s <> "").
Proof.
  revert s. induction (N.lt_wf_0 x) as [x _ IH]; intros s Hs.
  assert (x = 0 \/ 0 < x)%N as [->|Hx] by lia;
    [by rewrite !pretty_N_go_0|].
  rewrite !pretty_N_go_step by done.
  destruct (IH (x `div` 10)%N (N.div_lt x 10 Hx eq_refl)
              (String (pretty_N_char (x `mod` 10)) s)) as [H1 H2].
  { simpl. constructor; [right; apply pretty_N_char_digit|done]. }
  split; [done|]. intros _. by apply H2.
Qed.

Lemma pretty_N_digits (x : N) :
  Forall (fun c => (c = 45 \/ 48 <= c <= 57)%N) (txt (pretty x))
  /\ pretty x <> "".
Proof.
  unfold pretty, pretty_N. case_decide as Hx.
  { split; [|done]. change (txt "0") with [48%N].
    constructor; [lia|constructor]. }
  assert (0 < x)%N as Hpos by lia.
  rewrite pretty_N_go_step by done.
  destruct (pretty_N_go_digits (x `div` 10)%N
              (String (pretty_N_char (x `mod` 10)) "")) as [H1 H2].
  { simpl. constructor; [right; apply pretty_N_char_digit|done]. }
  split; [done|]. by apply H2.
Qed.

Lemma pretty_Z_digits (z : Z) :
  Forall (fun c => (c = 45 \/ 48 <= c <= 57)%N) (txt (pretty z))
  /\ pretty z <> "".
Proof.
  destruct z as [|p|p].
  - split; [|done]. change (txt (pretty 0%Z)) with [48%N].
    constructor; [lia|constructor].
  - apply (pretty_N_digits (Npos p)).
  - destruct (pretty_N_digits (Npos p)) as [H1 H2].
    change (pretty (Z.neg p)) with ("-" +:+ pretty (Npos p)).
    split; [|done]. constructor; [by left|done].
Qed.

Section Numerals.
Import Txt TxtFacts.
Context `{B : Backend} {HB : BackendOk B}.

(** A text of printable ASCII characters with no space and no lower-case
    letter is its own key. *)
Lemma normalize_plain (s : list N) :
  Forall (fun c => (33 <= c <= 126)%N /\ ~ (97 <= c <= 122)%N) s ->
  normalize s = s.
Proof.
  intros H. rewrite normalize_steps.
  assert (S1 : Forall (fun c => strip_space c = false) s).
  { eapply Forall_impl; [exact H|]. intros c [Hc _]. by apply ok_graph. }
  assert (S2 : has_space re_space s = false).
  { clear H. induction S1 as [|c s Hc _ IH]; [done|]. simpl.
    by rewrite (ok_not_re c Hc), IH. }
  rewrite strip_id.
  - unfold sub_ws. rewrite sub_ws_go_no_space by done.
    apply upper_fixed. eapply Forall_impl; [exact H|]. intros c [Hc Hl].
    rewrite ok_upper_ascii by lia.
    destruct (N.leb_spec 97 c), (N.leb_spec c 122); cbn [andb]; try done.
    destruct Hl. lia.
  - destruct S1 as [|c s Hc _]; [done|exact Hc].
  - unfold ends_ws. destruct (last s) as [c|] eqn:E; [|done].
    apply last_Some_elem_of in E. rewrite Forall_forall in S1. by apply S1.
Qed.

(** X6: the key of a whole number is its decimal text, so two whole
    numbers have the same key only when they are equal. *)
Theorem normalize_value_int (z1 z2 : Z) :
  normalize_value (CInt z1) = txt (pretty z1)
  /\ (normalize_value (CInt z1) = normalize_value (CInt z2) <-> z1 = z2).
Proof.
  assert (E : forall z, normalize_value (CInt z) = txt (pretty z)).
  { intros z. rewrite normalize_value_text. unfold astype_str. cbn.
    apply normalize_plain. destruct (pretty_Z_digits z) as [H _].
    eapply Forall_impl; [exact H|]. intros c [->|Hc]; split; lia. }
  split; [apply E|]. rewrite !E. split; [|by intros ->].
  intros H%txt_inj. by apply pretty_Z_inj.
Qed.

End Numerals.

(** ** The Diff Engine *)

Section Selection.
Context {A : Type}.

Lemma select_map (P : A -> Prop) `{!forall x, Decision (P x)} (l : list A) :
  select l (map (fun x => bool_decide (P x)) l) = filter P l.
Proof.
  induction l as [|x l IH]; [done|]. simpl. rewrite IH.
  rewrite filter_cons. case_bool_decide; by case_decide.
Qed.

Lemma select_sublist (l : list A) (mask : list bool) :
  select l mask `sublist_of` l.
Proof.
  revert mask. induction l as [|x l IH]; intros [|[] mask]; simpl;
    try apply sublist_nil_l.
  - apply sublist_skip, IH.
  - apply sublist_cons, IH.
Qed.

Lemma positions_from_S (i : nat) (mask : list bool) :
  positions_from (S i) mask = S <$> positions_from i mask.
Proof.
  revert i. induction mask as [|[] mask IH]; intros i; simpl; [done| |done].
  by rewrite IH.
Qed.

(** The selection is the elements at the positions of the mask. *)
Lemma select_positions (l : list A) (mask : list bool) :
  select l mask = omap (fun i => l !! i) (positions mask).
Proof.
  unfold positions. revert mask.
  induction l as [|x l IH]; intros mask.
  - destruct mask as [|b mask]; simpl; [done|].
    generalize 0. induction mask as [|[] mask IHm]; intros i; simpl; auto.
    + by destruct b.
    + destruct b; simpl; apply (IHm (S i)).
    + destruct b; simpl; apply (IHm (S i)).
  - destruct mask as [|b mask]; [done|].
    assert (E : omap (fun i => (x :: l) !! i) (S <$> positions_from 0 mask)
                = omap (fun i => l !! i) (positions_from 0 mask)).
    { induction (positions_from 0 mask) as [|j js IHj]; [done|].
      simpl. destruct (l !! j); [f_equal|]; exact IHj. }
    destruct b; cbn [select positions_from]; rewrite positions_from_S.
    + transitivity
        (x :: omap (fun i => (x :: l) !! i) (S <$> positions_from 0 mask));
        [|done].
      by rewrite E, IH.
    + by rewrite E, IH.
Qed.

Lemma elem_of_positions (mask : list bool) (i : nat) :
  i ∈ positions mask <-> mask !! i = Some true.
Proof.
  unfold positions. revert i. induction mask as [|b mask IH]; intros i.
  - simpl. split; [by intros ?%elem_of_nil|done].
  - simpl. rewrite positions_from_S. destruct i as [|i]; simpl.
    + destruct b.
      * split; [done|]. intros _. apply list_elem_of_here.
      * split; [|done]. intros (j & ? & _)%list_elem_of_fmap. done.
    + rewrite <- IH. destruct b.
      * rewrite elem_of_cons, list_elem_of_fmap. split.
        -- intros [?|(j & [= ->] & ?)]; done.
        -- intros ?. right. eauto.
      * rewrite list_elem_of_fmap. split.
        -- by intros (j & [= ->] & ?).
        -- eauto.
Qed.

End Selection.

Lemma col_pos_Some (name : string) (cols : list string) :
  name ∈ cols -> exists i, col_pos name cols = Some i.
Proof.
  induction cols as [|c cols IH]; [by intros ?%elem_of_nil|].
  intros [->|H]%elem_of_cons; simpl.
  - case_decide; [eauto|done].
  - case_decide; [eauto|]. destruct (IH H) as [i ->]. simpl. eauto.
Qed.

Lemma col_pos_None (name : string) (cols : list string) :
  name ∉ cols -> col_pos name cols = None.
Proof.
  induction cols as [|c cols IH]; [done|].
  intros [Hne H]%not_elem_of_cons. simpl.
  case_decide; [done|]. by rewrite IH.
Qed.

Lemma col_pos_elem (name : string) (cols : list string) (i : nat) :
  col_pos name cols = Some i -> name ∈ cols.
Proof.
  intros H. destruct (decide (name ∈ cols)) as [|Hn]; [done|].
  by rewrite (col_pos_None _ _ Hn) in H.
Qed.

Lemma nonempty_values_filter (s : list (list N)) :
  nonempty_values s = filter (fun k => k <> []) s.
Proof. apply (select_map (fun k : list N => k <> [])). Qed.

Lemma elem_of_key_set (norm : list (list N)) (k : list N) :
  k ∈ key_set norm <-> k <> [] /\ k ∈ norm.
Proof.
  unfold key_set. rewrite elem_of_list_to_set, nonempty_values_filter.
  apply (list_elem_of_filter (fun k : list N => k <> [])).
Qed.

Lemma empty_not_in_key_set (norm : list (list N)) : [] ∉ key_set norm.
Proof. by intros [? _]%elem_of_key_set. Qed.

Lemma isin_select {A : Type} (key : A -> list N) (keys : gset (list N))
    (l : list A) :
  select l (isin (map key l) keys) = filter (fun r => key r ∈ keys) l.
Proof.
  unfold isin. rewrite map_map.
  apply (select_map (fun r => key r ∈ keys)).
Qed.

Lemma isin_lookup {A : Type} (key : A -> list N) (keys : gset (list N))
    (l : list A) (i : nat) (r : A) :
  l !! i = Some r ->
  isin (map key l) keys !! i = Some (bool_decide (key r ∈ keys)).
Proof.
  intros H. unfold isin. rewrite map_map.
  change (map (fun x => bool_decide (key x ∈ keys)) l)
    with ((fun x => bool_decide (key x ∈ keys)) <$> l).
  by rewrite list_lookup_fmap, H.
Qed.

(** Rows with a key split in two: key in the other dataset or not. *)
Lemma filter_partition_length {A : Type} (key : A -> list N)
    (mine other : gset (list N)) (l : list A) :
  [] ∉ mine ->
  (forall r, r ∈ l -> key r <> [] -> key r ∈ mine) ->
  length (filter (fun r => key r ∈ mine ∖ other) l)
  + length (filter (fun r => key r <> [] /\ key r ∈ other) l)
  = length (filter (fun r => key r <> []) l).
Proof.
  intros Hempty. induction l as [|r l IH]; intros Hin; [done|].
  assert (IH' := IH (fun r' H => Hin r' (list_elem_of_further _ _ _ H))).
  assert (Hr := Hin r (list_elem_of_here _ _)).
  rewrite !filter_cons.
  destruct (decide (key r = [])) as [E|E].
  - rewrite !decide_False; [done|by intros []|by intros []|].
    rewrite E. by intros [? _]%elem_of_difference.
  - destruct (decide (key r ∈ other)) as [O|O].
    + rewrite decide_False by by intros [_ ?]%elem_of_difference.
      rewrite !decide_True by done. simpl. lia.
    + rewrite decide_True by (apply elem_of_difference; auto).
      rewrite decide_False by by intros [].
      rewrite decide_True by done. simpl. lia.
Qed.

Lemma filter_nil_iff {A : Type} (P : A -> Prop) `{!forall x, Decision (P x)}
    (l : list A) :
  filter P l = [] <-> Forall (fun x => ~ P x) l.
Proof.
  induction l as [|x l IH]; [by split; [constructor|]|].
  rewrite filter_cons. case_decide as Hx.
  - split; [done|]. by intros [? _]%Forall_cons.
  - rewrite IH. split; [by constructor|by intros [_ ?]%Forall_cons].
Qed.

Section Diff.
Context `{B : Backend}.

Lemma getitem_keys (df : DataFrame) (col : list cell) :
  getitem df NAME_COL = inr col ->
  normalize_name col = map (key_of df) (rows df).
Proof.
  unfold getitem, key_of, name_of.
  destruct (col_pos NAME_COL (columns df)) as [i|]; [|done].
  intros [= <-]. unfold normalize_name. by rewrite map_map.
Qed.

Lemma getitem_inr (df : DataFrame) :
  NAME_COL ∈ columns df -> exists col, getitem df NAME_COL = inr col.
Proof.
  intros [i Hi]%col_pos_Some. unfold getitem. rewrite Hi. eauto.
Qed.

Lemma getitem_inv (df : DataFrame) (col : list cell) :
  getitem df NAME_COL = inr col -> NAME_COL ∈ columns df.
Proof.
  unfold getitem.
  destruct (col_pos NAME_COL (columns df)) as [i|] eqn:E; [|done].
  intros _. by eapply col_pos_elem.
Qed.

(** With the name column in both datasets the block raises nothing, and
    its names have these values. *)
Lemma compare_inr (df_a df_b : DataFrame) :
  NAME_COL ∈ columns df_a -> NAME_COL ∈ columns df_b ->
  compare df_a df_b =
  inr {| a_norm := norm_keys df_a;
         b_norm := norm_keys df_b;
         a_set := key_set (norm_keys df_a);
         b_set := key_set (norm_keys df_b);
         new_mask_b :=
           isin (norm_keys df_b)
             (key_set (norm_keys df_b) ∖ key_set (norm_keys df_a));
         removed_mask_a :=
           isin (norm_keys df_a)
             (key_set (norm_keys df_a) ∖ key_set (norm_keys df_b));
         new_rows_b :=
           {| columns := columns df_b;
              rows := filter
                        (fun r => key_of df_b r
                                  ∈ key_set (norm_keys df_b)
                                    ∖ key_set (norm_keys df_a))
                        (rows df_b) |};
         removed_rows_a :=
           {| columns := columns df_a;
              rows := filter
                        (fun r => key_of df_a r
                                  ∈ key_set (norm_keys df_a)
                                    ∖ key_set (norm_keys df_b))
                        (rows df_a) |} |}.
Proof.
  intros [ca Ha]%getitem_inr [cb Hb]%getitem_inr.
  unfold compare. rewrite Ha. cbn. rewrite Hb. cbn.
  rewrite (getitem_keys _ _ Ha), (getitem_keys _ _ Hb).
  unfold loc. by rewrite !isin_select.
Qed.

Lemma compare_inv (df_a df_b : DataFrame) (c : comparison) :
  compare df_a df_b = inr c ->
  NAME_COL ∈ columns df_a /\ NAME_COL ∈ columns df_b.
Proof.
  unfold compare.
  destruct (getitem df_a NAME_COL) as [|ca] eqn:Ha; [done|].
  destruct (getitem df_b NAME_COL) as [|cb] eqn:Hb; [done|].
  intros _. split; by eapply getitem_inv.
Qed.

Lemma key_set_is_key (df : DataFrame) (k : list N) :
  k ∈ key_set (map (key_of df) (rows df)) <-> is_key df k.
Proof.
  rewrite elem_of_key_set. unfold is_key.
  change (map (key_of df) (rows df)) with (key_of df <$> rows df).
  rewrite list_elem_of_fmap. split.
  - intros [Hk (r & -> & Hr)]. split; [done|]. by exists r.
  - intros [Hk (r & Hr & <-)]. split; [done|]. by exists r.
Qed.

(** Take the result [compare_inr] gives and read its fields. *)
Ltac compare_result Ha Hb :=
  eexists; split; [exact (compare_inr _ _ Ha Hb)|];
  cbn [a_norm b_norm a_set b_set new_mask_b removed_mask_a
       new_rows_b removed_rows_a rows columns].

(** C1: with the name column in both datasets the block computes the
    two key sets (the non-empty normalized names of each dataset), marks
    in the new dataset exactly the positions whose key is in
    keys(new) minus keys(old) and in the old dataset exactly those whose
    key is in keys(old) minus keys(new), and the added and removed rows
    are all the rows so marked, each as often as it occurs. *)
Theorem compare_set_difference (df_a df_b : DataFrame) :
  NAME_COL ∈ columns df_a -> NAME_COL ∈ columns df_b ->
  exists c, compare df_a df_b = inr c
    /\ (forall k, k ∈ a_set c <-> is_key df_a k)
    /\ (forall k, k ∈ b_set c <-> is_key df_b k)
    /\ new_mask_b c =
         map (fun r => bool_decide (key_of df_b r ∈ b_set c ∖ a_set c))
           (rows df_b)
    /\ removed_mask_a c =
         map (fun r => bool_decide (key_of df_a r ∈ a_set c ∖ b_set c))
           (rows df_a)
    /\ new_rows_b c =
         {| columns := columns df_b;
            rows := filter (fun r => key_of df_b r ∈ b_set c ∖ a_set c)
                      (rows df_b) |}
    /\ removed_rows_a c =
         {| columns := columns df_a;
            rows := filter (fun r => key_of df_a r ∈ a_set c ∖ b_set c)
                      (rows df_a) |}.
Proof.
  intros Ha Hb. compare_result Ha Hb.
  split; [apply key_set_is_key|]. split; [apply key_set_is_key|].
  unfold isin, norm_keys. by rewrite !map_map.
Qed.

(** C4: a row whose name normalizes to the empty string is marked
    neither added nor removed, whatever the datasets hold; the empty key
    is in neither key set and in neither difference, and no row of the
    two results has the empty key. *)
Theorem empty_key_never_classified (df_a df_b : DataFrame) :
  NAME_COL ∈ columns df_a -> NAME_COL ∈ columns df_b ->
  exists c, compare df_a df_b = inr c
    /\ ([] ∉ a_set c) /\ ([] ∉ b_set c)
    /\ ([] ∉ b_set c ∖ a_set c) /\ ([] ∉ a_set c ∖ b_set c)
    /\ (forall i r, rows df_b !! i = Some r -> key_of df_b r = [] ->
          new_mask_b c !! i = Some false)
    /\ (forall i r, rows df_a !! i = Some r -> key_of df_a r = [] ->
          removed_mask_a c !! i = Some false)
    /\ Forall (fun r => key_of df_b r <> []) (rows (new_rows_b c))
    /\ Forall (fun r => key_of df_a r <> []) (rows (removed_rows_a c)).
Proof.
  intros Ha Hb. compare_result Ha Hb.
  pose proof (empty_not_in_key_set (norm_keys df_a)) as Ea.
  pose proof (empty_not_in_key_set (norm_keys df_b)) as Eb.
  split; [done|]. split; [done|].
  split; [by intros [? _]%elem_of_difference|].
  split; [by intros [? _]%elem_of_difference|].
  split; [|split; [|split]].
  - intros i r Hi Hk. unfold norm_keys. rewrite (isin_lookup _ _ _ _ _ Hi).
    f_equal. apply bool_decide_eq_false. rewrite Hk.
    by intros [? _]%elem_of_difference.
  - intros i r Hi Hk. unfold norm_keys. rewrite (isin_lookup _ _ _ _ _ Hi).
    f_equal. apply bool_decide_eq_false. rewrite Hk.
    by intros [? _]%elem_of_difference.
  - apply Forall_forall. intros r [Hr _]%list_elem_of_filter E.
    rewrite E in Hr. by apply elem_of_difference in Hr as [? _].
  - apply Forall_forall. intros r [Hr _]%list_elem_of_filter E.
    rewrite E in Hr. by apply elem_of_difference in Hr as [? _].
Qed.

(** C7: the added rows are a subsequence of the rows of the new dataset
    and the removed rows a subsequence of the rows of the old one, index
    labels included: rows are dropped, none is moved. *)
Theorem results_keep_row_order (df_a df_b : DataFrame) :
  NAME_COL ∈ columns df_a -> NAME_COL ∈ columns df_b ->
  exists c, compare df_a df_b = inr c
    /\ rows (new_rows_b c) `sublist_of` rows df_b
    /\ rows (removed_rows_a c) `sublist_of` rows df_a.
Proof.
  intros Ha Hb. compare_result Ha Hb.
  split; apply sublist_filter.
Qed.

(** C9: in the new dataset the added rows and the rows whose non-empty
    key is also a key of the old dataset are together as many as the
    rows with a non-empty key; likewise for the removed rows in the old
    dataset. *)
Theorem added_unchanged_partition (df_a df_b : DataFrame) :
  NAME_COL ∈ columns df_a -> NAME_COL ∈ columns df_b ->
  exists c, compare df_a df_b = inr c
    /\ len (new_rows_b c)
       + length (filter (fun r => key_of df_b r <> [] /\ key_of df_b r ∈ a_set c)
                   (rows df_b))
       = length (filter (fun r => key_of df_b r <> []) (rows df_b))
    /\ len (removed_rows_a c)
       + length (filter (fun r => key_of df_a r <> [] /\ key_of df_a r ∈ b_set c)
                   (rows df_a))
       = length (filter (fun r => key_of df_a r <> []) (rows df_a)).
Proof.
  intros Ha Hb. compare_result Ha Hb. unfold len. cbn [rows].
  split; apply filter_partition_length; try apply empty_not_in_key_set.
  - intros r Hr Hne. apply elem_of_key_set. split; [done|].
    unfold norm_keys. change (key_of df_b r ∈ key_of df_b <$> rows df_b).
    apply list_elem_of_fmap. by exists r.
  - intros r Hr Hne. apply elem_of_key_set. split; [done|].
    unfold norm_keys. change (key_of df_a r ∈ key_of df_a <$> rows df_a).
    apply list_elem_of_fmap. by exists r.
Qed.

(** The selection is read off the masks: the result rows are the source
    rows at the selected positions. *)
Lemma selected_rows (df_a df_b : DataFrame) (c : comparison) :
  compare df_a df_b = inr c ->
  selected df_a df_b
    = inr (positions (new_mask_b c), positions (removed_mask_a c))
  /\ rows (new_rows_b c)
     = omap (fun i => rows df_b !! i) (positions (new_mask_b c))
  /\ rows (removed_rows_a c)
     = omap (fun i => rows df_a !! i) (positions (removed_mask_a c)).
Proof.
  intros H. split; [unfold selected; by rewrite H|].
  revert H. unfold compare.
  destruct (getitem df_a NAME_COL) as [|ca]; [done|].
  destruct (getitem df_b NAME_COL) as [|cb]; [done|].
  intros [= <-]. cbn [new_rows_b removed_rows_a new_mask_b removed_mask_a loc rows].
  split; apply select_positions.
Qed.

(** C10: two runs whose old datasets have the same name column and whose
    new datasets have the same name column select the same row
    positions as added and as removed (or raise the same exception),
    whatever the other columns hold; in a run that compares, the result
    rows are the rows at those positions. *)
Theorem selection_depends_on_names_only (a1 b1 a2 b2 : DataFrame) :
  getitem a1 NAME_COL = getitem a2 NAME_COL ->
  getitem b1 NAME_COL = getitem b2 NAME_COL ->
  selected a1 b1 = selected a2 b2
  /\ (forall c, compare a1 b1 = inr c ->
        selected a1 b1
          = inr (positions (new_mask_b c), positions (removed_mask_a c))
        /\ rows (new_rows_b c)
           = omap (fun i => rows b1 !! i) (positions (new_mask_b c))
        /\ rows (removed_rows_a c)
           = omap (fun i => rows a1 !! i) (positions (removed_mask_a c))).
Proof.
  intros Ha Hb. split; [|apply selected_rows].
  unfold selected, compare. rewrite Ha, Hb.
  destruct (getitem a2 NAME_COL) as [|ca]; [done|].
  by destruct (getitem b2 NAME_COL) as [|cb].
Qed.

Lemma elem_of_norm_keys (df : DataFrame) (r : Z * list cell) :
  r ∈ rows df -> key_of df r <> [] -> key_of df r ∈ key_set (norm_keys df).
Proof.
  intros Hr Hne. apply elem_of_key_set. split; [done|].
  unfold norm_keys. change (key_of df r ∈ key_of df <$> rows df).
  apply list_elem_of_fmap. by exists r.
Qed.

(** No row of one dataset reaches the result exactly when every key of
    that dataset is a key of the other one. *)
Lemma added_nil_iff (df_a df_b : DataFrame) :
  rows (added df_a df_b) = []
  <-> key_set (norm_keys df_b) ⊆ key_set (norm_keys df_a).
Proof.
  unfold added. cbn [rows]. rewrite filter_nil_iff, Forall_forall. split.
  - intros H k Hk. pose proof Hk as [Hne Hin]%elem_of_key_set.
    unfold norm_keys in Hin.
    change (k ∈ key_of df_b <$> rows df_b) in Hin.
    apply list_elem_of_fmap in Hin as (r & -> & Hr).
    destruct (decide (key_of df_b r ∈ key_set (norm_keys df_a))); [done|].
    destruct (H r Hr). by apply elem_of_difference.
  - intros H r Hr [Hb Ha]%elem_of_difference. by apply Ha, H.
Qed.

(** X7: a key that both datasets have is reported on neither side: no
    added row has a key of the old dataset, no removed row a key of the
    new one, every position with a shared key is unmarked in both masks,
    and no added row has the key of a removed row. *)
Theorem shared_keys_never_reported (df_a df_b : DataFrame) :
  NAME_COL ∈ columns df_a -> NAME_COL ∈ columns df_b ->
  exists c, compare df_a df_b = inr c
    /\ Forall (fun r => key_of df_b r ∉ a_set c) (rows (new_rows_b c))
    /\ Forall (fun r => key_of df_a r ∉ b_set c) (rows (removed_rows_a c))
    /\ (forall i r, rows df_b !! i = Some r -> key_of df_b r ∈ a_set c ->
          new_mask_b c !! i = Some false)
    /\ (forall i r, rows df_a !! i = Some r -> key_of df_a r ∈ b_set c ->
          removed_mask_a c !! i = Some false)
    /\ (forall ra rb, ra ∈ rows (removed_rows_a c) ->
          rb ∈ rows (new_rows_b c) -> key_of df_a ra <> key_of df_b rb).
Proof.
  intros Ha Hb. compare_result Ha Hb.
  split; [|split; [|split; [|split]]].
  - apply Forall_forall. intros r [Hr _]%list_elem_of_filter.
    by apply elem_of_difference in Hr as [_ ?].
  - apply Forall_forall. intros r [Hr _]%list_elem_of_filter.
    by apply elem_of_difference in Hr as [_ ?].
  - intros i r Hi Hk. unfold norm_keys. rewrite (isin_lookup _ _ _ _ _ Hi).
    f_equal. apply bool_decide_eq_false. by intros [_ ?]%elem_of_difference.
  - intros i r Hi Hk. unfold norm_keys. rewrite (isin_lookup _ _ _ _ _ Hi).
    f_equal. apply bool_decide_eq_false. by intros [_ ?]%elem_of_difference.
  - intros ra rb [Hra _]%list_elem_of_filter [Hrb _]%list_elem_of_filter E.
    apply elem_of_difference in Hra as [Hra _].
    apply elem_of_difference in Hrb as [_ Hrb]. by rewrite E in Hra.
Qed.

(** X8: comparing the other way round exchanges the two results: what
    was removed is added and what was added is removed, masks and key
    sets likewise. *)
Theorem compare_swap (df_a df_b : DataFrame) :
  NAME_COL ∈ columns df_a -> NAME_COL ∈ columns df_b ->
  exists c c', compare df_a df_b = inr c /\ compare df_b df_a = inr c'
    /\ new_rows_b c' = removed_rows_a c
    /\ removed_rows_a c' = new_rows_b c
    /\ new_mask_b c' = removed_mask_a c
    /\ removed_mask_a c' = new_mask_b c
    /\ a_set c' = b_set c /\ b_set c' = a_set c.
Proof.
  intros Ha Hb. eexists. eexists.
  split; [exact (compare_inr _ _ Ha Hb)|].
  split; [exact (compare_inr _ _ Hb Ha)|]. done.
Qed.

(** X9: nothing is added exactly when every key of the new dataset is a
    key of the old one, nothing is removed exactly when every key of the
    old dataset is a key of the new one, and both results are empty
    exactly when the two key sets are equal. *)
Theorem nothing_reported_iff (df_a df_b : DataFrame) :
  NAME_COL ∈ columns df_a -> NAME_COL ∈ columns df_b ->
  exists c, compare df_a df_b = inr c
    /\ (rows (new_rows_b c) = [] <-> b_set c ⊆ a_set c)
    /\ (rows (removed_rows_a c) = [] <-> a_set c ⊆ b_set c)
    /\ (rows (new_rows_b c) = [] /\ rows (removed_rows_a c) = []
        <-> a_set c = b_set c).
Proof.
  intros Ha Hb. compare_result Ha Hb.
  pose proof (added_nil_iff df_a df_b) as Hn.
  pose proof (added_nil_iff df_b df_a) as Hr.
  unfold added in Hn, Hr. cbn [rows] in Hn, Hr.
  split; [done|]. split; [done|]. rewrite Hn, Hr. split.
  - intros [H1 H2]. apply set_eq. intros k. split; [apply H2|apply H1].
  - intros ->. done.
Qed.

(** X10: the selection depends on the name columns through their keys
    alone: two runs whose old datasets have the same normalized name
    column, and whose new datasets have, select the same positions. *)
Theorem selection_depends_on_keys_only (a1 b1 a2 b2 : DataFrame)
    (ca1 cb1 ca2 cb2 : list cell) :
  getitem a1 NAME_COL = inr ca1 -> getitem b1 NAME_COL = inr cb1 ->
  getitem a2 NAME_COL = inr ca2 -> getitem b2 NAME_COL = inr cb2 ->
  normalize_name ca1 = normalize_name ca2 ->
  normalize_name cb1 = normalize_name cb2 ->
  selected a1 b1 = selected a2 b2
  /\ exists pos_b pos_a, selected a1 b1 = inr (pos_b, pos_a).
Proof.
  intros Ha1 Hb1 Ha2 Hb2 Ea Eb. unfold selected, compare.
  rewrite Ha1, Hb1, Ha2, Hb2. cbn. rewrite Ea, Eb. split; [done|]. eauto.
Qed.

Lemma in_difference_iff (df other : DataFrame) (r : Z * list cell) :
  r ∈ rows df ->
  key_of df r ∈ key_set (norm_keys df) ∖ key_set (norm_keys other)
  <-> key_of df r <> [] /\ ~ is_key other (key_of df r).
Proof.
  intros Hr. rewrite elem_of_difference.
  unfold norm_keys at 2. rewrite key_set_is_key. split.
  - intros [[Hne _]%elem_of_key_set Ho]. done.
  - intros [Hne Ho]. split; [by apply elem_of_norm_keys|done].
Qed.

(** X20: a row of the new dataset is added exactly when its key is not
    empty and is the key of no row of the old dataset, and a row of the
    old dataset is removed exactly when its key is not empty and is the
    key of no row of the new one; this holds for the marks, position by
    position, and for the rows of the two results. *)
Theorem reported_iff_key_unknown (df_a df_b : DataFrame) :
  NAME_COL ∈ columns df_a -> NAME_COL ∈ columns df_b ->
  exists c, compare df_a df_b = inr c
    /\ (forall i r, rows df_b !! i = Some r ->
          (new_mask_b c !! i = Some true
           <-> key_of df_b r <> [] /\ ~ is_key df_a (key_of df_b r)))
    /\ (forall i r, rows df_a !! i = Some r ->
          (removed_mask_a c !! i = Some true
           <-> key_of df_a r <> [] /\ ~ is_key df_b (key_of df_a r)))
    /\ (forall r, r ∈ rows (new_rows_b c)
          <-> r ∈ rows df_b
              /\ key_of df_b r <> [] /\ ~ is_key df_a (key_of df_b r))
    /\ (forall r, r ∈ rows (removed_rows_a c)
          <-> r ∈ rows df_a
              /\ key_of df_a r <> [] /\ ~ is_key df_b (key_of df_a r)).
Proof.
  intros Ha Hb. compare_result Ha Hb.
  split; [|split; [|split]].
  - intros i r Hi. unfold norm_keys at 1.
    rewrite (isin_lookup _ _ _ _ _ Hi).
    rewrite <- (in_difference_iff df_b df_a r)
      by (by eapply list_elem_of_lookup_2).
    split; [intros [= H]; by apply bool_decide_eq_true in H|].
    intros H. f_equal. by apply bool_decide_eq_true.
  - intros i r Hi. unfold norm_keys at 1.
    rewrite (isin_lookup _ _ _ _ _ Hi).
    rewrite <- (in_difference_iff df_a df_b r)
      by (by eapply list_elem_of_lookup_2).
    split; [intros [= H]; by apply bool_decide_eq_true in H|].
    intros H. f_equal. by apply bool_decide_eq_true.
  - intros r. rewrite list_elem_of_filter. split.
    + intros [H Hr]. split; [done|]. by apply in_difference_iff.
    + intros [Hr H]. split; [|done]. by apply in_difference_iff.
  - intros r. rewrite list_elem_of_filter. split.
    + intros [H Hr]. split; [done|]. by apply in_difference_iff.
    + intros [Hr H]. split; [|done]. by apply in_difference_iff.
Qed.

End Diff.

(** ** Validation of the name column *)

Lemma missing_columns_cases (df_a df_b : DataFrame) :
  missing_columns df_a df_b
  = (if decide (NAME_COL ∈ columns df_a) then [] else [missing_a])
    ++ (if decide (NAME_COL ∈ columns df_b) then [] else [missing_b]).
Proof.
  unfold missing_columns.
  destruct (decide (NAME_COL ∈ columns df_a)) as [Ha|Ha];
    destruct (decide (NAME_COL ∈ columns df_b)) as [Hb|Hb].
  - rewrite !bool_decide_eq_false_2; [done|by intros ?..].
  - rewrite (bool_decide_eq_false_2 (_ ∉ columns df_a)) by by intros ?.
    by rewrite bool_decide_eq_true_2.
  - rewrite (bool_decide_eq_true_2 (_ ∉ columns df_a)) by done.
    by rewrite bool_decide_eq_false_2 by by intros ?.
  - by rewrite !bool_decide_eq_true_2.
Qed.

Section Validation.
Context `{B : Backend}.

(** C3: when the name column is not in the old dataset, not in the new
    one, or in neither, the script shows one error that lists exactly
    the datasets without the column and stops there: nothing is
    compared, no result is shown and no download is offered. *)
Theorem missing_column_halts (df_a df_b : DataFrame) :
  NAME_COL ∉ columns df_a \/ NAME_COL ∉ columns df_b ->
  script (Some df_a) (Some df_b)
  = ([Subheader "1) Select sheets";
      Error ("Cannot compare because required column is missing:"
             +:+ nl +:+ nl +:+ "- "
             +:+ Str.join (nl +:+ "- ") (missing_columns df_a df_b))],
     Stopped)
  /\ (missing_a ∈ missing_columns df_a df_b <-> NAME_COL ∉ columns df_a)
  /\ (missing_b ∈ missing_columns df_a df_b <-> NAME_COL ∉ columns df_b)
  /\ (forall m, m ∈ missing_columns df_a df_b -> m = missing_a \/ m = missing_b).
Proof.
  intros H. rewrite missing_columns_cases.
  unfold script. rewrite missing_columns_cases.
  destruct (decide (NAME_COL ∈ columns df_a)) as [Ha|Ha];
    destruct (decide (NAME_COL ∈ columns df_b)) as [Hb|Hb];
    [by destruct H| | |].
  all: split; [reflexivity|].
  all: cbn [app].
  all: repeat split; try done.
  all: rewrite ?elem_of_cons, ?elem_of_nil; try tauto.
  all: try (intros [E|[]]; done).
  all: try (intros [E|[E|[]]]; done).
  all: intros m; rewrite ?elem_of_cons, ?elem_of_nil; tauto.
Qed.

End Validation.

(** ** The Result Assembler *)

Lemma py_range_length (n : nat) : length (py_range 1 (n + 1)) = n.
Proof. unfold py_range. rewrite length_map, length_seq. lia. Qed.

(** Numbering rows already re-indexed from [i]: row [j] gets the ordinal
    [i + j + 1] in front. *)
Lemma number_rows (l : list (Z * list cell)) (i : nat) :
  zip_with (fun (r : Z * list cell) v => (r.1, v :: r.2))
    (imap (fun j r => (Z.of_nat (i + j), r.2)) l)
    (map (fun k => CInt (Z.of_nat k)) (seq (S i) (length l)))
  = imap (fun j r => (Z.of_nat (i + j), CInt (Z.of_nat (S (i + j))) :: r.2)) l.
Proof.
  revert i. induction l as [|r l IH]; intros i; [done|].
  rewrite !imap_cons. cbn [length seq map zip_with fst snd].
  f_equal.
  - by rewrite Nat.add_0_r.
  - rewrite (imap_ext _ (fun j r => (Z.of_nat (S i + j), r.2))).
    2: { intros j x _. cbn. f_equal. f_equal. lia. }
    rewrite IH. apply imap_ext. intros j x _. cbn.
    by replace (i + S j) with (S (i + j)) by lia.
Qed.

Lemma add_serial_number_numbered (df : DataFrame) :
  SERIAL_COL ∉ columns df -> add_serial_number df = inr (numbered df).
Proof.
  intros H. unfold add_serial_number, df_insert.
  cbn [columns reset_index_drop].
  rewrite bool_decide_eq_false_2 by done.
  rewrite bool_decide_eq_true_2.
  2: { rewrite py_range_length. unfold len, reset_index_drop. cbn [rows].
       by rewrite length_imap. }
  unfold numbered. f_equal. cbn [take drop app]. f_equal.
  unfold py_range, len, reset_index_drop. cbn [rows]. rewrite length_imap.
  replace (length (rows df) + 1 - 1) with (length (rows df)) by lia.
  exact (number_rows (rows df) 0).
Qed.

Lemma add_serial_number_taken (df : DataFrame) :
  SERIAL_COL ∈ columns df ->
  add_serial_number df = inl (ValueError "cannot insert S/N, already exists").
Proof.
  intros H. unfold add_serial_number, df_insert.
  cbn [columns reset_index_drop]. by rewrite bool_decide_eq_true_2.
Qed.

(** C8, as stated, fails on a subset that already has a column S/N:
    [insert] refuses the label and no table is produced. *)
Lemma add_serial_number_existing_label :
  add_serial_number with_serial
  = inl (ValueError "cannot insert S/N, already exists")
  /\ ~ (exists out, add_serial_number with_serial = inr out).
Proof.
  assert (E : add_serial_number with_serial
              = inl (ValueError "cannot insert S/N, already exists"))
    by reflexivity.
  split; [exact E|]. intros [out H]. rewrite E in H. discriminate.
Qed.

(** C8, amended: for a subset of N rows with no column S/N the table has
    S/N as its first column and the columns of the subset after it, has
    N rows, row [i] being row [i] of the subset with the ordinal [i + 1]
    in front and the index label [i]; the S/N column reads 1, 2, ..., N
    and the rest of every row is the subset's row, in the same order. *)
Theorem add_serial_number_contiguous (df : DataFrame) :
  SERIAL_COL ∉ columns df ->
  exists out, add_serial_number df = inr out
    /\ columns out = SERIAL_COL :: columns df
    /\ len out = len df
    /\ (forall i r, rows df !! i = Some r ->
          rows out !! i
          = Some (Z.of_nat i, CInt (Z.of_nat (i + 1)) :: r.2))
    /\ map (cell_at 0) (rows out)
       = map (fun k => CInt (Z.of_nat k)) (seq 1 (len df))
    /\ map (fun r : Z * list cell => tail r.2) (rows out)
       = map snd (rows df).
Proof.
  intros H. exists (numbered df).
  split; [by apply add_serial_number_numbered|].
  split; [done|].
  split; [apply length_imap|].
  split; [|split].
  - intros i r Hi. cbn [numbered rows].
    rewrite list_lookup_imap, Hi. cbn.
    by replace (i + 1) with (S i) by lia.
  - cbn [numbered rows]. unfold len.
    change (map (cell_at 0)) with (fmap (M:=list) (cell_at 0)).
    rewrite fmap_imap.
    rewrite (imap_ext _ (fun j _ => CInt (Z.of_nat (1 + j)))) by done.
    apply (imap_seq (rows df) (fun k => CInt (Z.of_nat k)) 1).
  - cbn [numbered rows].
    change (map (fun r : Z * list cell => tail r.2))
      with (fmap (M:=list) (fun r : Z * list cell => tail r.2)).
    rewrite fmap_imap.
    rewrite (imap_ext _ (fun _ r => r.2)) by done.
    apply imap_const.
Qed.

(** X11: [add_serial_number] raises exactly when the table already has
    a column S/N, and then with the ValueError of [insert] for a label
    that exists; the length check of [insert] never fails. *)
Theorem add_serial_number_raises_iff (df : DataFrame) :
  ((exists e, add_serial_number df = inl e) <-> SERIAL_COL ∈ columns df)
  /\ (forall e, add_serial_number df = inl e ->
        e = ValueError "cannot insert S/N, already exists").
Proof.
  destruct (decide (SERIAL_COL ∈ columns df)) as [H|H].
  - rewrite (add_serial_number_taken df H). split.
    + split; [done|]. intros _. by eexists.
    + by intros e [= <-].
  - rewrite (add_serial_number_numbered df H). split.
    + split; [by intros [e ?]|done].
    + by intros e.
Qed.

(** X12: a numbered table cannot be numbered again: the second call
    finds the column S/N and raises. *)
Theorem add_serial_number_twice (df out : DataFrame) :
  add_serial_number df = inr out ->
  add_serial_number out
  = inl (ValueError "cannot insert S/N, already exists").
Proof.
  intros H. apply add_serial_number_taken.
  destruct (decide (SERIAL_COL ∈ columns df)) as [Hs|Hs].
  - by rewrite (add_serial_number_taken df Hs) in H.
  - rewrite (add_serial_number_numbered df Hs) in H.
    injection H as <-. apply list_elem_of_here.
Qed.

(** ** The reader [pick_sheet] chooses *)

Lemma append_assoc (s t u : string) : (s +:+ t) +:+ u = s +:+ t +:+ u.
Proof.
  induction s as [|c s IH]; [done|].
  change (String c ((s +:+ t) +:+ u) = String c (s +:+ t +:+ u)).
  by rewrite IH.
Qed.

Section Engine.
Import Str.
Variable sep : ascii.

#[local] Arguments String.append !_ _ / : simpl nomatch.

Lemma split_no_sep (s : string) :
  has_char sep s = false -> split sep s = [s].
Proof.
  induction s as [|c s IH]; [done|]. simpl.
  intros [-> H]%orb_false_iff. by rewrite IH.
Qed.

Lemma split_sep (s : string) :
  has_char sep s = true -> exists w w' ws, split sep s = w :: w' :: ws.
Proof.
  induction s as [|c s IH]; [done|]. simpl.
  destruct (Ascii.eqb c sep) eqn:E; simpl.
  - intros _. destruct (split sep s) as [|w ws] eqn:Es.
    + by destruct s; simpl in Es; repeat case_match.
    + by exists "", w, ws.
  - intros (w & w' & ws & ->)%IH. by exists (String c w), w', ws.
Qed.

Lemma last_piece_cons (c : ascii) (s : string) :
  last_piece (split sep (String c s))
  = if Ascii.eqb c sep || has_char sep s
    then last_piece (split sep s) else String c s.
Proof.
  unfold last_piece. simpl. destruct (Ascii.eqb c sep) eqn:E; simpl.
  - destruct (split sep s) as [|w ws] eqn:Es; [|done].
    by destruct s; simpl in Es; repeat case_match.
  - destruct (has_char sep s) eqn:H.
    + by destruct (split_sep s H) as (w & w' & ws & ->).
    + by rewrite (split_no_sep s H).
Qed.

(** The last piece has no separator in it and ends the text, after
    nothing or after a separator. *)
Lemma last_piece_suffix (s : string) :
  has_char sep (last_piece (split sep s)) = false
  /\ exists p, s = p +:+ last_piece (split sep s)
       /\ (p = "" \/ exists p', p = p' +:+ String sep "").
Proof.
  induction s as [|c s (IH1 & p & IH2 & IH3)].
  { split; [done|]. exists "". by split; [|left]. }
  rewrite last_piece_cons.
  destruct (Ascii.eqb c sep) eqn:E; simpl.
  - split; [done|]. exists (String c p). split; [simpl; by rewrite <- IH2|].
    right. apply Ascii.eqb_eq in E as ->.
    destruct IH3 as [->|[p' ->]]; [by exists ""|by exists (String sep p')].
  - destruct (has_char sep s) eqn:H.
    + split; [done|]. exists (String c p).
      split; [simpl; by rewrite <- IH2|]. right.
      destruct IH3 as [->|[p' ->]]; [|by exists (String c p')].
      simpl in IH2. rewrite <- IH2 in IH1. congruence.
    + split; [simpl; by rewrite E, H|]. exists "". by split; [|left].
Qed.

Lemma has_char_app_sep (p t : string) :
  has_char sep (p +:+ String sep t) = true.
Proof.
  induction p as [|c p IH]; simpl; [by rewrite Ascii.eqb_refl|].
  by rewrite IH, orb_true_r.
Qed.

Lemma last_piece_app (p t : string) :
  has_char sep t = false -> last_piece (split sep (p +:+ String sep t)) = t.
Proof.
  intros Ht. induction p as [|c p IH].
  - simpl String.append. rewrite last_piece_cons, Ascii.eqb_refl. simpl.
    unfold last_piece. by rewrite (split_no_sep t Ht).
  - simpl String.append. rewrite last_piece_cons, has_char_app_sep.
    by rewrite orb_true_r.
Qed.

End Engine.

(** X15: a file is read with openpyxl exactly when its name in lower
    case is xlsx or ends in .xlsx, whatever the case of the letters in
    the name; every other file, one without extension too, is read with
    xlrd.  The extension in question has no dot in it. *)
Theorem excel_engine_choice (name : string) :
  (excel_engine name = "openpyxl"
   <-> Str.lower name = "xlsx" \/ Str.ends_with (Str.lower name) ".xlsx")
  /\ (excel_engine name = "openpyxl" \/ excel_engine name = "xlrd")
  /\ Str.has_char "." (file_ext name) = false.
Proof.
  unfold excel_engine, file_ext.
  destruct (last_piece_suffix "." (Str.lower name)) as (H1 & p & H2 & H3).
  split; [|split; [by case_decide; [left|right]|done]].
  case_decide as E; split; try done.
  - intros _. rewrite E in H2.
    destruct H3 as [->|[p' ->]]; [by left|]. right. exists p'.
    by rewrite H2, append_assoc.
  - intros [H|[p' H]]; destruct E; rewrite H; [done|].
    by apply (last_piece_app "." p' "xlsx").
Qed.

Example excel_engine_demo :
  map excel_engine ["Vendors.XLSX"; "old.list.xls"; "xlsx"; "report.xlsx.bak"; ""]
  = ["openpyxl"; "xlrd"; "openpyxl"; "xlrd"; "xlrd"].
Proof. reflexivity. Qed.

(** ** Runs of the script *)

Lemma bind_done {B : Type} (l : list ui_event) (k : unit -> Script B) :
  (l, Done tt) ≫= k = after l (k tt).
Proof. done. Qed.

Lemma bind_emit {B : Type} (e : ui_event) (k : unit -> Script B) :
  emit e ≫= k = after [e] (k tt).
Proof. done. Qed.

Lemma bind_ret {A B : Type} (a : A) (k : A -> Script B) :
  ret a ≫= k = k a.
Proof. unfold mbind, script_mbind, bind. simpl. by destruct (k a). Qed.

Lemma bind_run_inr {A B : Type} (a : A) (k : A -> Script B) :
  run (inr a) ≫= k = k a.
Proof. apply bind_ret. Qed.

Lemma bind_run_inl {A B : Type} (e : exn) (k : A -> Script B) :
  run (inl e) ≫= k = ([], Uncaught e).
Proof. done. Qed.

Lemma after_after {B : Type} (l l' : list ui_event) (m : Script B) :
  after l (after l' m) = after (l ++ l') m.
Proof. unfold after. cbn [fst snd]. by rewrite app_assoc. Qed.

Lemma after_end {B : Type} (l : list ui_event) (o : outcome B) :
  after l ([], o) = (l, o).
Proof. unfold after. cbn [fst snd]. by rewrite app_nil_r. Qed.

Lemma getitem_frame_names (df : DataFrame) :
  NAME_COL ∈ columns df -> getitem_frame df NAME_COL = inr (names_only df).
Proof.
  intros [i Hi]%col_pos_Some. unfold getitem_frame, names_only, name_of.
  by rewrite Hi.
Qed.

Lemma preview_shows (title nothing : string) (df : DataFrame) :
  NAME_COL ∈ columns df ->
  preview title nothing df = (preview_events title nothing df, Done tt).
Proof.
  intros H. unfold preview, preview_events. rewrite bind_emit.
  unfold df_empty. destruct (columns df) as [|c cs] eqn:Ec.
  { by apply elem_of_nil in H. }
  destruct (rows df) as [|r rs] eqn:Er; cbn [negb]; [done|].
  rewrite getitem_frame_names by (by rewrite Ec). by rewrite bind_run_inr.
Qed.

Section Runs.
Context `{B : Backend}.

(** The script with the name column in both datasets, up to the two
    calls of [add_serial_number]. *)
Lemma script_compares (df_a df_b : DataFrame) :
  NAME_COL ∈ columns df_a -> NAME_COL ∈ columns df_b ->
  script (Some df_a) (Some df_b)
  = (report_events df_a df_b, Done tt) ≫= fun _ =>
      run (add_serial_number (added df_a df_b)) ≫= fun new_rows_b_out =>
      run (add_serial_number (removed df_a df_b)) ≫= fun removed_rows_a_out =>
      run (to_xlsx_bytes [(txt "New_in_Excel_B", new_rows_b_out);
                          (txt "Removed_from_Excel_A", removed_rows_a_out)])
        ≫= fun xlsx_bytes =>
      emit (DownloadButton "Download comparison (XLSX)" xlsx_bytes
              "nric_name_comparison.xlsx"
              "application/vnd.openxmlformats-officedocument.spreadsheetml.sheet").
Proof.
  intros Ha Hb. unfold script. rewrite missing_columns_cases.
  rewrite !decide_True by done. cbn [app].
  rewrite bool_decide_eq_true_2 by done. cbn [negb].
  rewrite bind_emit, bind_ret.
  rewrite (compare_inr _ _ Ha Hb), bind_run_inr.
  cbn [new_rows_b removed_rows_a].
  fold (added df_a df_b). fold (added df_b df_a). fold (removed df_a df_b).
  rewrite !bind_emit.
  rewrite (preview_shows _ _ (added df_a df_b)) by done.
  rewrite bind_done. cbv beta.
  rewrite (preview_shows _ _ (removed df_a df_b)) by done.
  rewrite bind_done. cbv beta. rewrite bind_done.
  rewrite !after_after. reflexivity.
Qed.

(** The names of the two sheets are shorter than 31 characters. *)
Lemma to_xlsx_bytes_results (df_a df_b : DataFrame) :
  to_xlsx_bytes [(txt "New_in_Excel_B", numbered (added df_a df_b));
                 (txt "Removed_from_Excel_A", numbered (removed df_a df_b))]
  = excel_write (export_calls df_a df_b).
Proof. reflexivity. Qed.

(** X16: with the name column in both datasets and a column S/N in
    neither, the script shows the four sections, the summary with the
    four counts and, on each side of the preview, the names of the rows
    found or the note that there are none; it hands the writer the added
    rows under the name New_in_Excel_B and the removed rows under the
    name Removed_from_Excel_A, each numbered from 1 in a first column
    S/N, and ends with the download button for the workbook the writer
    returns, or with the exception the writer raises. *)
Theorem script_completes (df_a df_b : DataFrame) :
  NAME_COL ∈ columns df_a -> NAME_COL ∈ columns df_b ->
  SERIAL_COL ∉ columns df_a -> SERIAL_COL ∉ columns df_b ->
  script (Some df_a) (Some df_b)
  = after (report_events df_a df_b) (download df_a df_b).
Proof.
  intros Ha Hb Sa Sb. rewrite (script_compares _ _ Ha Hb), bind_done.
  rewrite (add_serial_number_numbered (added df_a df_b)) by done.
  rewrite bind_run_inr.
  rewrite (add_serial_number_numbered (removed df_a df_b)) by done.
  rewrite bind_run_inr, to_xlsx_bytes_results. unfold download.
  destruct (excel_write (export_calls df_a df_b)) as [e|workbook];
    [by rewrite bind_run_inl|by rewrite bind_run_inr].
Qed.

(** X17: with the name column in both datasets and a column S/N in one
    of them, the script shows the summary and the preview in full and
    then ends at the download section with the ValueError of [insert]:
    no download button is shown. *)
Theorem script_serial_column_raises (df_a df_b : DataFrame) :
  NAME_COL ∈ columns df_a -> NAME_COL ∈ columns df_b ->
  SERIAL_COL ∈ columns df_a \/ SERIAL_COL ∈ columns df_b ->
  script (Some df_a) (Some df_b)
  = (report_events df_a df_b,
     Uncaught (ValueError "cannot insert S/N, already exists")).
Proof.
  intros Ha Hb S. rewrite (script_compares _ _ Ha Hb), bind_done.
  destruct (decide (SERIAL_COL ∈ columns df_b)) as [Sb|Sb].
  - rewrite (add_serial_number_taken (added df_a df_b)) by done.
    rewrite bind_run_inl. apply after_end.
  - destruct S as [Sa|]; [|done].
    rewrite (add_serial_number_numbered (added df_a df_b)) by done.
    rewrite bind_run_inr.
    rewrite (add_serial_number_taken (removed df_a df_b)) by done.
    rewrite bind_run_inl. apply after_end.
Qed.

(** X19: the page is the request to upload both files, and nothing
    else, exactly when a file is not uploaded. *)
Theorem script_upload_prompt (file_a file_b : option DataFrame) :
  script file_a file_b = ([Info "Upload both Excel files to compare."], Done tt)
  <-> file_a = None \/ file_b = None.
Proof.
  split.
  - destruct file_a as [df_a|], file_b as [df_b|]; auto.
    unfold script. rewrite bind_emit. unfold after. cbn [app].
    intros H. injection H as H _. discriminate.
  - by intros [->| ->]; [|destruct file_a].
Qed.

End Runs.

(** * On the sample backends *)

(** ** Strings as Python objects *)

Section OnObjectStrings.
#[local] Existing Instance object_strings.

Example norm_words_demo :
  norm_words ([32; 32] ++ txt "John" ++ [9] ++ txt " Tan" ++ [10])%N
  = [txt "John"; txt "Tan"].
Proof. reflexivity. Qed.

(** LF, spaces, a TAB: [strip] takes the ends, the runs inside stay. *)
Example strip_demo :
  Txt.strip strip_space ([10] ++ txt " John   Tan " ++ [9])%N
  = txt "John   Tan".
Proof. reflexivity. Qed.

(** josé with a no-break space in front: the space goes, the
    accented letter is upper-cased. *)
Example normalize_latin1 :
  normalize ([160] ++ txt "jos" ++ [233])%N = (txt "JOS" ++ [201])%N.
Proof. reflexivity. Qed.

(** A missing value is the text nan or None by the time [fillna] runs,
    and its key is NAN or NONE. *)
Example normalize_name_object_strings :
  normalize_name with_missing
  = [txt "NAN"; txt "NONE"; []; []; txt "DAN HO"].
Proof. vm_compute. reflexivity. Qed.

Example normalize_name_demo :
  normalize_name [CStr (txt "john tan"); CInt (-42); CBool true;
                  CObj (txt "17.0")]
  = [txt "JOHN TAN"; txt "-42"; txt "TRUE"; txt "17.0"].
Proof. vm_compute. reflexivity. Qed.

Lemma normalize_trims_collapses_uppercases_witness :
  (forall s : list N,
      ((exists p q, s = p ++ Txt.strip strip_space s ++ q
          /\ Txt.all_space strip_space p = true
          /\ Txt.all_space strip_space q = true)
       /\ Txt.starts_ws strip_space (Txt.strip strip_space s) = false
       /\ Txt.ends_ws strip_space (Txt.strip strip_space s) = false
       /\ Txt.lstrip strip_space (Txt.strip strip_space s)
          = Txt.strip strip_space s
       /\ Txt.rstrip strip_space (Txt.strip strip_space s)
          = Txt.strip strip_space s)
      /\ Txt.sub_ws re_space (Txt.strip strip_space s)
         = Txt.join space (norm_words s)
      /\ Forall (fun w => Txt.is_word re_space w = true) (norm_words s)
      /\ normalize s
         = Txt.join space (map (Txt.upper upper_of) (norm_words s)))
  /\ normalize (txt "  John   Tan ") = txt "JOHN TAN"
  /\ normalize (txt "john tan") = normalize (txt "JOHN TAN").
Proof.
  apply (normalize_trims_collapses_uppercases (HB := object_strings_ok)).
Defined.

Lemma normalize_idempotent_witness :
  normalize (normalize ([160] ++ txt " jos" ++ [233; 9] ++ txt "tan ")%N)
  = normalize ([160] ++ txt " jos" ++ [233; 9] ++ txt "tan ")%N.
Proof.
  apply (normalize_idempotent (HB := object_strings_ok)).
Defined.

Lemma normalize_eq_iff_witness :
  normalize (txt "john  tan") = normalize (txt " John Tan")
  <-> map (Txt.upper upper_of) (norm_words (txt "john  tan"))
      = map (Txt.upper upper_of) (norm_words (txt " John Tan")).
Proof.
  apply (normalize_eq_iff (HB := object_strings_ok)).
Defined.

Lemma normalize_value_empty_iff_witness :
  normalize_value (CStr (txt "   ")) = []
  <-> (astype_keeps_missing = true /\ is_missing (CStr (txt "   ")) = true)
      \/ Txt.all_space strip_space (py_str (CStr (txt "   "))) = true.
Proof.
  apply (normalize_value_empty_iff (HB := object_strings_ok)).
Defined.

Lemma normalize_value_tidy_witness :
  Txt.strip strip_space (normalize_value (CStr (txt " john   tan ")))
  = normalize_value (CStr (txt " john   tan "))
  /\ Txt.sub_ws re_space (normalize_value (CStr (txt " john   tan ")))
     = normalize_value (CStr (txt " john   tan "))
  /\ Txt.upper upper_of (normalize_value (CStr (txt " john   tan ")))
     = normalize_value (CStr (txt " john   tan ")).
Proof.
  apply (normalize_value_tidy (HB := object_strings_ok)).
Defined.

Lemma normalize_ignores_padding_witness :
  normalize (txt "  " ++ txt "John Tan" ++ txt " ") = normalize (txt "John Tan").
Proof.
  by apply (normalize_ignores_padding (txt "  ") (txt "John Tan") (txt " ")).
Defined.

Lemma normalize_value_int_witness :
  normalize_value (CInt (-42)) = txt (pretty (-42)%Z)
  /\ (normalize_value (CInt (-42)) = normalize_value (CInt 7)
      <-> (-42)%Z = 7%Z).
Proof.
  apply (normalize_value_int (HB := object_strings_ok)).
Defined.

Lemma compare_set_difference_witness :
  NAME_COL ∈ columns old1 /\ NAME_COL ∈ columns new1
  /\ exists c, compare old1 new1 = inr c
    /\ (forall k, k ∈ a_set c <-> is_key old1 k)
    /\ (forall k, k ∈ b_set c <-> is_key new1 k)
    /\ new_mask_b c =
         map (fun r => bool_decide (key_of new1 r ∈ b_set c ∖ a_set c))
           (rows new1)
    /\ removed_mask_a c =
         map (fun r => bool_decide (key_of old1 r ∈ a_set c ∖ b_set c))
           (rows old1)
    /\ new_rows_b c =
         {| columns := columns new1;
            rows := filter (fun r => key_of new1 r ∈ b_set c ∖ a_set c)
                      (rows new1) |}
    /\ removed_rows_a c =
         {| columns := columns old1;
            rows := filter (fun r => key_of old1 r ∈ a_set c ∖ b_set c)
                      (rows old1) |}.
Proof.
  split; [apply list_elem_of_here|]. split; [apply list_elem_of_here|].
  apply (compare_set_difference old1 new1); apply list_elem_of_here.
Defined.

Lemma missing_column_halts_witness :
  script (Some no_names) (Some new1)
  = ([Subheader "1) Select sheets";
      Error ("Cannot compare because required column is missing:"
             +:+ nl +:+ nl +:+ "- "
             +:+ Str.join (nl +:+ "- ") (missing_columns no_names new1))],
     Stopped)
  /\ (missing_a ∈ missing_columns no_names new1 <-> NAME_COL ∉ columns no_names)
  /\ (missing_b ∈ missing_columns no_names new1 <-> NAME_COL ∉ columns new1)
  /\ (forall m, m ∈ missing_columns no_names new1 ->
        m = missing_a \/ m = missing_b).
Proof.
  apply (missing_column_halts no_names new1).
  left. apply (bool_decide_unpack _). vm_compute. exact I.
Defined.

Lemma empty_key_never_classified_witness :
  exists c, compare old_blank new_blank = inr c
    /\ ([] ∉ a_set c) /\ ([] ∉ b_set c)
    /\ ([] ∉ b_set c ∖ a_set c) /\ ([] ∉ a_set c ∖ b_set c)
    /\ (forall i r, rows new_blank !! i = Some r -> key_of new_blank r = [] ->
          new_mask_b c !! i = Some false)
    /\ (forall i r, rows old_blank !! i = Some r -> key_of old_blank r = [] ->
          removed_mask_a c !! i = Some false)
    /\ Forall (fun r => key_of new_blank r <> []) (rows (new_rows_b c))
    /\ Forall (fun r => key_of old_blank r <> []) (rows (removed_rows_a c)).
Proof.
  apply (empty_key_never_classified old_blank new_blank);
    apply list_elem_of_here.
Defined.

Lemma results_keep_row_order_witness :
  exists c, compare old_blank new_blank = inr c
    /\ rows (new_rows_b c) `sublist_of` rows new_blank
    /\ rows (removed_rows_a c) `sublist_of` rows old_blank.
Proof.
  apply (results_keep_row_order old_blank new_blank); apply list_elem_of_here.
Defined.

Lemma add_serial_number_contiguous_witness :
  exists out, add_serial_number two_rows = inr out
    /\ columns out = SERIAL_COL :: columns two_rows
    /\ len out = len two_rows
    /\ (forall i r, rows two_rows !! i = Some r ->
          rows out !! i
          = Some (Z.of_nat i, CInt (Z.of_nat (i + 1)) :: r.2))
    /\ map (cell_at 0) (rows out)
       = map (fun k => CInt (Z.of_nat k)) (seq 1 (len two_rows))
    /\ map (fun r : Z * list cell => tail r.2) (rows out)
       = map snd (rows two_rows).
Proof.
  apply (add_serial_number_contiguous two_rows).
  apply (bool_decide_unpack _). vm_compute. exact I.
Defined.

Lemma added_unchanged_partition_witness :
  exists c, compare old_blank new_blank = inr c
    /\ len (new_rows_b c)
       + length (filter (fun r => key_of new_blank r <> []
                                  /\ key_of new_blank r ∈ a_set c)
                   (rows new_blank))
       = length (filter (fun r => key_of new_blank r <> []) (rows new_blank))
    /\ len (removed_rows_a c)
       + length (filter (fun r => key_of old_blank r <> []
                                  /\ key_of old_blank r ∈ b_set c)
                   (rows old_blank))
       = length (filter (fun r => key_of old_blank r <> []) (rows old_blank)).
Proof.
  apply (added_unchanged_partition old_blank new_blank);
    apply list_elem_of_here.
Defined.

Lemma selection_depends_on_names_only_witness :
  selected old1 new1 = selected old1_wide new1_wide
  /\ (forall c, compare old1 new1 = inr c ->
        selected old1 new1
          = inr (positions (new_mask_b c), positions (removed_mask_a c))
        /\ rows (new_rows_b c)
           = omap (fun i => rows new1 !! i) (positions (new_mask_b c))
        /\ rows (removed_rows_a c)
           = omap (fun i => rows old1 !! i) (positions (removed_mask_a c))).
Proof.
  apply (selection_depends_on_names_only old1 new1 old1_wide new1_wide);
    reflexivity.
Defined.

Lemma shared_keys_never_reported_witness :
  exists c, compare old_blank new_blank = inr c
    /\ Forall (fun r => key_of new_blank r ∉ a_set c) (rows (new_rows_b c))
    /\ Forall (fun r => key_of old_blank r ∉ b_set c) (rows (removed_rows_a c))
    /\ (forall i r, rows new_blank !! i = Some r ->
          key_of new_blank r ∈ a_set c -> new_mask_b c !! i = Some false)
    /\ (forall i r, rows old_blank !! i = Some r ->
          key_of old_blank r ∈ b_set c -> removed_mask_a c !! i = Some false)
    /\ (forall ra rb, ra ∈ rows (removed_rows_a c) ->
          rb ∈ rows (new_rows_b c) ->
          key_of old_blank ra <> key_of new_blank rb).
Proof.
  apply (shared_keys_never_reported old_blank new_blank);
    apply list_elem_of_here.
Defined.

Lemma compare_swap_witness :
  exists c c', compare old_blank new_blank = inr c
    /\ compare new_blank old_blank = inr c'
    /\ new_rows_b c' = removed_rows_a c
    /\ removed_rows_a c' = new_rows_b c
    /\ new_mask_b c' = removed_mask_a c
    /\ removed_mask_a c' = new_mask_b c
    /\ a_set c' = b_set c /\ b_set c' = a_set c.
Proof.
  apply (compare_swap old_blank new_blank); apply list_elem_of_here.
Defined.

(** Two sheets with the same names spelled differently. *)
Lemma nothing_reported_iff_witness :
  exists c, compare old1 new1 = inr c
    /\ (rows (new_rows_b c) = [] <-> b_set c ⊆ a_set c)
    /\ (rows (removed_rows_a c) = [] <-> a_set c ⊆ b_set c)
    /\ (rows (new_rows_b c) = [] /\ rows (removed_rows_a c) = []
        <-> a_set c = b_set c).
Proof.
  apply (nothing_reported_iff old1 new1); apply list_elem_of_here.
Defined.

Lemma selection_depends_on_keys_only_witness :
  selected old1 new1 = selected old1_respelled new1_respelled
  /\ exists pos_b pos_a, selected old1 new1 = inr (pos_b, pos_a).
Proof.
  apply (selection_depends_on_keys_only old1 new1 old1_respelled new1_respelled
           [CStr (txt "Alice Tan"); CStr (txt "Bob Lee")]
           [CStr (txt "ALICE TAN"); CStr (txt "Carol Ng")]
           [CStr (txt "ALICE  TAN"); CStr (txt " bob lee")]
           [CStr (txt "alice tan"); CStr (txt "carol   ng ")]); reflexivity.
Defined.

Lemma add_serial_number_twice_witness :
  add_serial_number (numbered two_rows)
  = inl (ValueError "cannot insert S/N, already exists").
Proof.
  apply (add_serial_number_twice two_rows (numbered two_rows)). reflexivity.
Defined.

Lemma script_serial_column_raises_witness :
  script (Some old1) (Some with_serial)
  = (report_events old1 with_serial,
     Uncaught (ValueError "cannot insert S/N, already exists")).
Proof.
  apply (script_serial_column_raises old1 with_serial);
    [| |right]; apply (bool_decide_unpack _); vm_compute; exact I.
Defined.

Lemma reported_iff_key_unknown_witness :
  exists c, compare old_blank new_blank = inr c
    /\ (forall i r, rows new_blank !! i = Some r ->
          (new_mask_b c !! i = Some true
           <-> key_of new_blank r <> []
               /\ ~ is_key old_blank (key_of new_blank r)))
    /\ (forall i r, rows old_blank !! i = Some r ->
          (removed_mask_a c !! i = Some true
           <-> key_of old_blank r <> []
               /\ ~ is_key new_blank (key_of old_blank r)))
    /\ (forall r, r ∈ rows (new_rows_b c)
          <-> r ∈ rows new_blank
              /\ key_of new_blank r <> []
              /\ ~ is_key old_blank (key_of new_blank r))
    /\ (forall r, r ∈ rows (removed_rows_a c)
          <-> r ∈ rows old_blank
              /\ key_of old_blank r <> []
              /\ ~ is_key new_blank (key_of old_blank r)).
Proof.
  apply (reported_iff_key_unknown old_blank new_blank);
    apply list_elem_of_here.
Defined.

Lemma script_completes_witness :
  script (Some old1_respelled) (Some new1)
  = after (report_events old1_respelled new1) (download old1_respelled new1).
Proof.
  apply (script_completes old1_respelled new1);
    apply (bool_decide_unpack _); vm_compute; exact I.
Defined.

(** ** Scenario 1, end to end *)

Example scenario_1 :
  script (Some old1) (Some new1)
  = ([Subheader "1) Select sheets";
      Subheader "2) Summary";
      Write "Rows A: 2 | Rows B: 2 | New in Excel B: 1 | Removed from Excel A: 1";
      Subheader "3) Results (Preview)";
      Markdown "### 🆕 New in Excel B";
      Dataframe {| columns := [NAME_COL]; rows := [named 1 "Carol Ng"] |};
      Markdown "### ❌ Removed from Excel A";
      Dataframe {| columns := [NAME_COL]; rows := [named 1 "Bob Lee"] |};
      Subheader "4) Download results";
      DownloadButton "Download comparison (XLSX)"
        [ {| sheet_name := txt "New_in_Excel_B";
             header := [SERIAL_COL; NAME_COL];
             body := [[CInt 1; CStr (txt "Carol Ng")]] |};
          {| sheet_name := txt "Removed_from_Excel_A";
             header := [SERIAL_COL; NAME_COL];
             body := [[CInt 1; CStr (txt "Bob Lee")]] |} ]
        "nric_name_comparison.xlsx"
        "application/vnd.openxmlformats-officedocument.spreadsheetml.sheet"],
     Done tt).
Proof. vm_compute. reflexivity. Qed.

(** A dataset with its own S/N column gets through the comparison and
    the preview; the script ends at the download with the exception. *)
Example scenario_serial_column :
  (script (Some old1) (Some with_serial)).2
  = Uncaught (ValueError "cannot insert S/N, already exists").
Proof. vm_compute. reflexivity. Qed.

(** An empty name cell in the old dataset alone is reported as a removed
    row, under the key NAN. *)
Example scenario_missing_name :
  (c ← compare {| columns := [NAME_COL]; rows := [(0%Z, [CNaN])] |} new1;
   inr (a_norm c, rows (removed_rows_a c)))
  = inr ([txt "NAN"], [(0%Z, [CNaN])]).
Proof. vm_compute. reflexivity. Qed.

End OnObjectStrings.

(** ** Strings in Arrow arrays *)

Section OnArrowStrings.
#[local] Existing Instance arrow_strings.


(** The missing values are still missing when [fillna] runs. *)
Example normalize_name_arrow_strings :
  normalize_name with_missing = [[]; []; []; []; txt "DAN HO"].
Proof. vm_compute. reflexivity. Qed.

(** A vertical tab inside a name is whitespace for [strip], not for
    [\s]: it stays. *)
Example normalize_vertical_tab :
  normalize ([11] ++ txt "john" ++ [11] ++ txt "tan ")%N
  = (txt "JOHN" ++ [11] ++ txt "TAN")%N.
Proof. reflexivity. Qed.

(** An empty name cell is in no key set: the row is not reported. *)
Example scenario_missing_name_kept :
  (c ← compare {| columns := [NAME_COL]; rows := [(0%Z, [CNaN])] |} new1;
   inr (a_norm c, rows (removed_rows_a c)))
  = inr ([[]], []).
Proof. vm_compute. reflexivity. Qed.

End OnArrowStrings.
